(** * DeadlockSSH: a shallow embedding of the honeypot and its statistics endpoint

    The development follows [src/deadlockssh.py] and [src/http_stats_server.py].

    Conventions of the embedding.
    - Integers of the configuration and the counters are [Z].
    - Durations in seconds are Python floats in the source.  In the model of
      the whole handler they are exact rationals [Q]: the comparisons and the
      cap logic are the source's, the rounding of binary64 sums, infinities
      and NaN are not represented there.  The bookkeeping of the delays is
      also given over an arbitrary arithmetic of the seconds and read at
      binary64 ([PrimFloat]), where the value of a delay is at stake.
    - Byte strings are [list byte], text is [string].
    - [defaultdict] and plain dictionaries are finite maps ([gmap]); the
      [Counter] that is serialised by the statistics endpoint keeps its
      insertion order and is an association list.
    - Calls into the operating system (sockets, the clock) are answered by an
      explicit environment, and every effect the code performs is appended to
      an event trace kept in the server state. *)

From Stdlib Require Import ZArith QArith Qminmax Lqa List String Ascii Lia.
From Stdlib Require Import Floats.
From Stdlib.Strings Require Import Byte.
From stdpp Require Import gmap strings list fin_maps pretty.
Import ListNotations.

Local Open Scope Z_scope.

(** ** Python primitives used by the source *)

Module Py.

(** [a < b] on seconds. *)
Definition Qltb (x y : Q) : bool :=
  (Qnum x * QDen y <? Qnum y * QDen x)%Z.

(** The builtin [min(a, b)]: the first argument unless the second is
    strictly smaller. *)
Definition min (a b : Q) : Q := if Qltb b a then b else a.

(** Normalisation of a slice bound against a sequence of length [len]:
    negative bounds count from the end, and every bound is clamped. *)
Definition slice_bound (len i : Z) : Z :=
  if i <? 0 then Z.max (len + i) 0 else Z.min i len.

(** [l[:stop]] *)
Definition slice_to {A : Type} (l : list A) (stop : Z) : list A :=
  firstn (Z.to_nat (slice_bound (Z.of_nat (length l)) stop)) l.

(** [l[start:]] *)
Definition slice_from {A : Type} (l : list A) (start : Z) : list A :=
  skipn (Z.to_nat (slice_bound (Z.of_nat (length l)) start)) l.

(** [len(l)] *)
Definition len {A : Type} (l : list A) : Z := Z.of_nat (length l).

End Py.

(** ** Exceptions, and the monad of state and exceptions *)

(** Exceptions that the [except] clauses of the source tell apart.
    [socket.error] is [OSError]; [socket.timeout] and [ConnectionResetError]
    are subclasses of it; [ValueError], [OverflowError],
    [configparser.Error] and [RuntimeError] are not. *)
Inductive exn : Type :=
| SocketTimeout
| ConnectionResetError
| OSError
| ValueError
| OverflowError
| ConfigParserError
| RuntimeError.

Definition is_socket_error (e : exn) : bool :=
  match e with
  | SocketTimeout | ConnectionResetError | OSError => true
  | ValueError | OverflowError | ConfigParserError | RuntimeError => false
  end.

Inductive result (A : Type) : Type :=
| Ok (a : A)
| Raise (e : exn).
Arguments Ok {A} a.
Arguments Raise {A} e.

(** Code that reads and writes a state [S] and may raise. *)
Definition ST (S A : Type) : Type := S → result A * S.

#[export] Instance ST_ret {S : Type} : MRet (ST S) := λ A a s, (Ok a, s).

#[export] Instance ST_bind {S : Type} : MBind (ST S) := λ A B k m s,
  match m s with
  | (Ok a, s') => k a s'
  | (Raise e, s') => (Raise e, s')
  end.

Definition raise {S A : Type} (e : exn) : ST S A := λ s, (Raise e, s).
Definition gets {S A : Type} (f : S → A) : ST S A := λ s, (Ok (f s), s).
Definition modify {S : Type} (f : S → S) : ST S unit := λ s, (Ok tt, f s).

(** A library call that raises when the environment says so. *)
Definition raise_if {S : Type} (r : option exn) : ST S unit :=
  match r with
  | Some e => raise e
  | None => mret tt
  end.

(** [if b: m] *)
Definition when {S : Type} (b : bool) (m : ST S unit) : ST S unit :=
  if b then m else mret tt.

(** [try: m except Exception as e: h e] *)
Definition try_except {S A : Type} (m : ST S A) (h : exn → ST S A) : ST S A := λ s,
  match m s with
  | (Ok a, s') => (Ok a, s')
  | (Raise e, s') => h e s'
  end.

(** [try: m finally: c] *)
Definition try_finally {S A : Type} (m : ST S A) (c : ST S unit) : ST S A := λ s,
  match m s with
  | (r, s') =>
      match c s' with
      | (Ok _, s'') => (r, s'')
      | (Raise e, s'') => (Raise e, s'')
      end
  end.

(** ** Configuration *)

Record config : Type := Config {
  port : Z;
  max_connections : Z;
  ssh_banner : string;
  banner_delay : Q;
  initial_delay : Q;
  delay_increment : Q;
  max_delay : Q;
  log_file : string;
  log_level : string;
  max_log_size : Z;
  log_backup_count : Z;
  max_input_length : Z;
  connection_timeout : Z;
  enable_http_stats : bool;
  http_stats_port : Z;
  tcp_keepalive : bool
}.

(** The dictionary literal of [DeadlockSSH.__init__]. *)
Definition default_config : config := {|
  port := 2222;
  max_connections := 100;
  ssh_banner := "SSH-2.0-OpenSSH_8.9p1 Ubuntu-3ubuntu0.1";
  banner_delay := 0.1%Q;
  initial_delay := 1.0%Q;
  delay_increment := 2.0%Q;
  max_delay := 60.0%Q;
  log_file := "honeypot.log";
  log_level := "INFO";
  max_log_size := 10 * 1024 * 1024;
  log_backup_count := 5;
  max_input_length := 1024;
  connection_timeout := 300;
  enable_http_stats := false;
  http_stats_port := 8080;
  tcp_keepalive := true
|}.

(** [self.config[key] = v], one function per key. *)
Definition with_port (v : Z) (c : config) : config :=
  {| port := v;
     max_connections := max_connections c;
     ssh_banner := ssh_banner c;
     banner_delay := banner_delay c;
     initial_delay := initial_delay c;
     delay_increment := delay_increment c;
     max_delay := max_delay c;
     log_file := log_file c;
     log_level := log_level c;
     max_log_size := max_log_size c;
     log_backup_count := log_backup_count c;
     max_input_length := max_input_length c;
     connection_timeout := connection_timeout c;
     enable_http_stats := enable_http_stats c;
     http_stats_port := http_stats_port c;
     tcp_keepalive := tcp_keepalive c |}.

Definition with_max_connections (v : Z) (c : config) : config :=
  {| port := port c;
     max_connections := v;
     ssh_banner := ssh_banner c;
     banner_delay := banner_delay c;
     initial_delay := initial_delay c;
     delay_increment := delay_increment c;
     max_delay := max_delay c;
     log_file := log_file c;
     log_level := log_level c;
     max_log_size := max_log_size c;
     log_backup_count := log_backup_count c;
     max_input_length := max_input_length c;
     connection_timeout := connection_timeout c;
     enable_http_stats := enable_http_stats c;
     http_stats_port := http_stats_port c;
     tcp_keepalive := tcp_keepalive c |}.

Definition with_ssh_banner (v : string) (c : config) : config :=
  {| port := port c;
     max_connections := max_connections c;
     ssh_banner := v;
     banner_delay := banner_delay c;
     initial_delay := initial_delay c;
     delay_increment := delay_increment c;
     max_delay := max_delay c;
     log_file := log_file c;
     log_level := log_level c;
     max_log_size := max_log_size c;
     log_backup_count := log_backup_count c;
     max_input_length := max_input_length c;
     connection_timeout := connection_timeout c;
     enable_http_stats := enable_http_stats c;
     http_stats_port := http_stats_port c;
     tcp_keepalive := tcp_keepalive c |}.

Definition with_banner_delay (v : Q) (c : config) : config :=
  {| port := port c;
     max_connections := max_connections c;
     ssh_banner := ssh_banner c;
     banner_delay := v;
     initial_delay := initial_delay c;
     delay_increment := delay_increment c;
     max_delay := max_delay c;
     log_file := log_file c;
     log_level := log_level c;
     max_log_size := max_log_size c;
     log_backup_count := log_backup_count c;
     max_input_length := max_input_length c;
     connection_timeout := connection_timeout c;
     enable_http_stats := enable_http_stats c;
     http_stats_port := http_stats_port c;
     tcp_keepalive := tcp_keepalive c |}.

Definition with_initial_delay (v : Q) (c : config) : config :=
  {| port := port c;
     max_connections := max_connections c;
     ssh_banner := ssh_banner c;
     banner_delay := banner_delay c;
     initial_delay := v;
     delay_increment := delay_increment c;
     max_delay := max_delay c;
     log_file := log_file c;
     log_level := log_level c;
     max_log_size := max_log_size c;
     log_backup_count := log_backup_count c;
     max_input_length := max_input_length c;
     connection_timeout := connection_timeout c;
     enable_http_stats := enable_http_stats c;
     http_stats_port := http_stats_port c;
     tcp_keepalive := tcp_keepalive c |}.

Definition with_delay_increment (v : Q) (c : config) : config :=
  {| port := port c;
     max_connections := max_connections c;
     ssh_banner := ssh_banner c;
     banner_delay := banner_delay c;
     initial_delay := initial_delay c;
     delay_increment := v;
     max_delay := max_delay c;
     log_file := log_file c;
     log_level := log_level c;
     max_log_size := max_log_size c;
     log_backup_count := log_backup_count c;
     max_input_length := max_input_length c;
     connection_timeout := connection_timeout c;
     enable_http_stats := enable_http_stats c;
     http_stats_port := http_stats_port c;
     tcp_keepalive := tcp_keepalive c |}.

Definition with_max_delay (v : Q) (c : config) : config :=
  {| port := port c;
     max_connections := max_connections c;
     ssh_banner := ssh_banner c;
     banner_delay := banner_delay c;
     initial_delay := initial_delay c;
     delay_increment := delay_increment c;
     max_delay := v;
     log_file := log_file c;
     log_level := log_level c;
     max_log_size := max_log_size c;
     log_backup_count := log_backup_count c;
     max_input_length := max_input_length c;
     connection_timeout := connection_timeout c;
     enable_http_stats := enable_http_stats c;
     http_stats_port := http_stats_port c;
     tcp_keepalive := tcp_keepalive c |}.

Definition with_log_file (v : string) (c : config) : config :=
  {| port := port c;
     max_connections := max_connections c;
     ssh_banner := ssh_banner c;
     banner_delay := banner_delay c;
     initial_delay := initial_delay c;
     delay_increment := delay_increment c;
     max_delay := max_delay c;
     log_file := v;
     log_level := log_level c;
     max_log_size := max_log_size c;
     log_backup_count := log_backup_count c;
     max_input_length := max_input_length c;
     connection_timeout := connection_timeout c;
     enable_http_stats := enable_http_stats c;
     http_stats_port := http_stats_port c;
     tcp_keepalive := tcp_keepalive c |}.

Definition with_log_level (v : string) (c : config) : config :=
  {| port := port c;
     max_connections := max_connections c;
     ssh_banner := ssh_banner c;
     banner_delay := banner_delay c;
     initial_delay := initial_delay c;
     delay_increment := delay_increment c;
     max_delay := max_delay c;
     log_file := log_file c;
     log_level := v;
     max_log_size := max_log_size c;
     log_backup_count := log_backup_count c;
     max_input_length := max_input_length c;
     connection_timeout := connection_timeout c;
     enable_http_stats := enable_http_stats c;
     http_stats_port := http_stats_port c;
     tcp_keepalive := tcp_keepalive c |}.

Definition with_max_log_size (v : Z) (c : config) : config :=
  {| port := port c;
     max_connections := max_connections c;
     ssh_banner := ssh_banner c;
     banner_delay := banner_delay c;
     initial_delay := initial_delay c;
     delay_increment := delay_increment c;
     max_delay := max_delay c;
     log_file := log_file c;
     log_level := log_level c;
     max_log_size := v;
     log_backup_count := log_backup_count c;
     max_input_length := max_input_length c;
     connection_timeout := connection_timeout c;
     enable_http_stats := enable_http_stats c;
     http_stats_port := http_stats_port c;
     tcp_keepalive := tcp_keepalive c |}.

Definition with_log_backup_count (v : Z) (c : config) : config :=
  {| port := port c;
     max_connections := max_connections c;
     ssh_banner := ssh_banner c;
     banner_delay := banner_delay c;
     initial_delay := initial_delay c;
     delay_increment := delay_increment c;
     max_delay := max_delay c;
     log_file := log_file c;
     log_level := log_level c;
     max_log_size := max_log_size c;
     log_backup_count := v;
     max_input_length := max_input_length c;
     connection_timeout := connection_timeout c;
     enable_http_stats := enable_http_stats c;
     http_stats_port := http_stats_port c;
     tcp_keepalive := tcp_keepalive c |}.

Definition with_max_input_length (v : Z) (c : config) : config :=
  {| port := port c;
     max_connections := max_connections c;
     ssh_banner := ssh_banner c;
     banner_delay := banner_delay c;
     initial_delay := initial_delay c;
     delay_increment := delay_increment c;
     max_delay := max_delay c;
     log_file := log_file c;
     log_level := log_level c;
     max_log_size := max_log_size c;
     log_backup_count := log_backup_count c;
     max_input_length := v;
     connection_timeout := connection_timeout c;
     enable_http_stats := enable_http_stats c;
     http_stats_port := http_stats_port c;
     tcp_keepalive := tcp_keepalive c |}.

Definition with_connection_timeout (v : Z) (c : config) : config :=
  {| port := port c;
     max_connections := max_connections c;
     ssh_banner := ssh_banner c;
     banner_delay := banner_delay c;
     initial_delay := initial_delay c;
     delay_increment := delay_increment c;
     max_delay := max_delay c;
     log_file := log_file c;
     log_level := log_level c;
     max_log_size := max_log_size c;
     log_backup_count := log_backup_count c;
     max_input_length := max_input_length c;
     connection_timeout := v;
     enable_http_stats := enable_http_stats c;
     http_stats_port := http_stats_port c;
     tcp_keepalive := tcp_keepalive c |}.

Definition with_enable_http_stats (v : bool) (c : config) : config :=
  {| port := port c;
     max_connections := max_connections c;
     ssh_banner := ssh_banner c;
     banner_delay := banner_delay c;
     initial_delay := initial_delay c;
     delay_increment := delay_increment c;
     max_delay := max_delay c;
     log_file := log_file c;
     log_level := log_level c;
     max_log_size := max_log_size c;
     log_backup_count := log_backup_count c;
     max_input_length := max_input_length c;
     connection_timeout := connection_timeout c;
     enable_http_stats := v;
     http_stats_port := http_stats_port c;
     tcp_keepalive := tcp_keepalive c |}.

Definition with_http_stats_port (v : Z) (c : config) : config :=
  {| port := port c;
     max_connections := max_connections c;
     ssh_banner := ssh_banner c;
     banner_delay := banner_delay c;
     initial_delay := initial_delay c;
     delay_increment := delay_increment c;
     max_delay := max_delay c;
     log_file := log_file c;
     log_level := log_level c;
     max_log_size := max_log_size c;
     log_backup_count := log_backup_count c;
     max_input_length := max_input_length c;
     connection_timeout := connection_timeout c;
     enable_http_stats := enable_http_stats c;
     http_stats_port := v;
     tcp_keepalive := tcp_keepalive c |}.

Definition with_tcp_keepalive (v : bool) (c : config) : config :=
  {| port := port c;
     max_connections := max_connections c;
     ssh_banner := ssh_banner c;
     banner_delay := banner_delay c;
     initial_delay := initial_delay c;
     delay_increment := delay_increment c;
     max_delay := max_delay c;
     log_file := log_file c;
     log_level := log_level c;
     max_log_size := max_log_size c;
     log_backup_count := log_backup_count c;
     max_input_length := max_input_length c;
     connection_timeout := connection_timeout c;
     enable_http_stats := enable_http_stats c;
     http_stats_port := http_stats_port c;
     tcp_keepalive := v |}.

(** ** The configuration file ([load_config])

    [configparser] is a library; it is represented by what its calls return.
    A file that cannot be opened is skipped by [ConfigParser.read] without an
    exception, a file that cannot be parsed makes [read] raise, and each typed
    getter of a section returns its fallback when the option is missing, the
    converted value when it converts, and raises [ValueError] otherwise. *)

Inductive option_value (A : Type) : Type :=
| Missing
| Value (a : A)
| Unconvertible.
Arguments Missing {A}.
Arguments Value {A} a.
Arguments Unconvertible {A}.

(** The section [honeypot] as the getters of [load_config] see it. *)
Record honeypot_section : Type := HoneypotSection {
  o_port : option_value Z;
  o_max_connections : option_value Z;
  o_ssh_banner : option_value string;
  o_banner_delay : option_value Q;
  o_initial_delay : option_value Q;
  o_delay_increment : option_value Q;
  o_max_delay : option_value Q;
  o_log_file : option_value string;
  o_log_level : option_value string;
  o_max_log_size : option_value Z;
  o_log_backup_count : option_value Z;
  o_max_input_length : option_value Z;
  o_connection_timeout : option_value Z;
  o_enable_http_stats : option_value bool;
  o_http_stats_port : option_value Z;
  o_tcp_keepalive : option_value bool
}.

Inductive config_file : Type :=
| Unreadable
| Malformed
| Parsed (honeypot : option honeypot_section).

(** Lines printed on standard output. *)
Inductive console_line : Type :=
| PrintConfigurationLoaded (file : string)
| PrintWarningCouldNotLoad (file : string) (e : exn)
| PrintUsingDefaultConfiguration
| PrintFatalError (e : exn)
| PrintHelp.

(** [section.getX(name, fallback)] *)
Definition getter {A : Type} (v : option_value A) (fallback : A) : ST config A :=
  match v with
  | Missing => mret fallback
  | Value a => mret a
  | Unconvertible => raise ValueError
  end.

(** [self.config[key] = section.getX(key, self.config[key])] *)
Definition assign {A : Type} (field : config → A) (with_field : A → config → config)
    (v : option_value A) : ST config unit :=
  old ← gets field;
  new ← getter v old;
  modify (with_field new).

(** The [try] block of [load_config]. *)
Definition load_config_try (file : config_file) : ST config unit :=
  match file with
  | Unreadable => mret tt
  | Malformed => raise ConfigParserError
  | Parsed None => mret tt
  | Parsed (Some section) =>
      assign port with_port (o_port section);;
      assign max_connections with_max_connections (o_max_connections section);;
      assign ssh_banner with_ssh_banner (o_ssh_banner section);;
      assign banner_delay with_banner_delay (o_banner_delay section);;
      assign initial_delay with_initial_delay (o_initial_delay section);;
      assign delay_increment with_delay_increment (o_delay_increment section);;
      assign max_delay with_max_delay (o_max_delay section);;
      assign log_file with_log_file (o_log_file section);;
      assign log_level with_log_level (o_log_level section);;
      assign max_log_size with_max_log_size (o_max_log_size section);;
      assign log_backup_count with_log_backup_count (o_log_backup_count section);;
      assign max_input_length with_max_input_length (o_max_input_length section);;
      assign connection_timeout with_connection_timeout (o_connection_timeout section);;
      assign enable_http_stats with_enable_http_stats (o_enable_http_stats section);;
      assign http_stats_port with_http_stats_port (o_http_stats_port section);;
      assign tcp_keepalive with_tcp_keepalive (o_tcp_keepalive section)
  end.

(** [load_config]: the configuration afterwards and the lines printed. *)
Definition load_config (name : string) (file : config_file) (c : config)
    : config * list console_line :=
  match load_config_try file c with
  | (Ok _, c') => (c', [PrintConfigurationLoaded name])
  | (Raise e, c') =>
      (c', [PrintWarningCouldNotLoad name e; PrintUsingDefaultConfiguration])
  end.

(** ** Server state *)

(** A naive [datetime] as returned by [datetime.now()]. *)
Record datetime : Type := Datetime {
  year : Z; month : Z; day : Z;
  hour : Z; minute : Z; second : Z; microsecond : Z
}.

(** [self.stats]; the keys are kept in the order of the dictionary literal. *)
Record stats : Type := Stats {
  total_connections : Z;
  active_connections : Z;
  connections_per_ip : list (string * Z);
  start_time : datetime
}.

Inductive level : Type := INFO | WARNING | ERROR.

(** The messages the handler writes, with their arguments. *)
Inductive log_record : Type :=
| LogConnection (ip : string) (peer_port : Z) (attempt : Z) (delay : Q)
| LogTimedOut (ip : string)
| LogReset (ip : string)
| LogHandlerError (ip : string) (e : exn)
| LogClosed (ip : string)
| LogData (ip : string) (log_data : list byte)
| LogInitialized
| LogSignal (signum : Z)
| LogListening (listen_port : Z)
| LogHttpStatsAttempt (stats_port : Z)
| LogSocketError
| LogFailedToStart (e : exn)
| LogShuttingDown
| LogHttpStatsStillAlive
| LogFinalStatistics (total : Z) (per_ip : list (string * Z))
| LogShutdownComplete.

(** Effects of the server, in program order.  [Send] is one call of
    [client_socket.send] that returned, [Sleep] one call of [time.sleep] that
    returned, [SockClose] the call of [client_socket.close()]; [Bind] and
    [Listen] are the calls on the listening socket that returned, [Spawn] a
    handler thread that was started, [ServerSocketClose] the call of
    [server_socket.close()], [DrainHandlers] the bounded wait of [shutdown]. *)
Inductive event : Type :=
| Log (lvl : level) (r : log_record)
| Sleep (seconds : Q)
| Send (unit_sent : ascii)
| SockClose
| Bind (bind_port : Z)
| Listen (backlog : Z)
| HttpStatsStart (stats_port : Z)
| HttpStatsShutdown
| Spawn (client_address : string * Z)
| ServerSocketClose
| DrainHandlers.

Record server : Type := Server {
  cfg : config;
  running : bool;
  (** [self.server_socket is not None] *)
  server_socket : bool;
  (** [self.http_server_thread is not None] *)
  http_server_thread : bool;
  server_stats : stats;
  ip_delays : gmap string Q;
  ip_connection_counts : gmap string Z;
  events : list event
}.

(** The state built by [DeadlockSSH.__init__] once the configuration is known. *)
Definition new_server (c : config) (now : datetime) : server := {|
  cfg := c;
  running := false;
  server_socket := false;
  http_server_thread := false;
  server_stats := {| total_connections := 0; active_connections := 0;
                     connections_per_ip := []; start_time := now |};
  ip_delays := ∅;
  ip_connection_counts := ∅;
  events := []
|}.

Definition set_cfg (f : config → config) (s : server) : server :=
  {| cfg := f (cfg s);
     running := running s;
     server_socket := server_socket s;
     http_server_thread := http_server_thread s;
     server_stats := server_stats s;
     ip_delays := ip_delays s;
     ip_connection_counts := ip_connection_counts s;
     events := events s |}.

Definition set_running (f : bool → bool) (s : server) : server :=
  {| cfg := cfg s;
     running := f (running s);
     server_socket := server_socket s;
     http_server_thread := http_server_thread s;
     server_stats := server_stats s;
     ip_delays := ip_delays s;
     ip_connection_counts := ip_connection_counts s;
     events := events s |}.

Definition set_server_socket (f : bool → bool) (s : server) : server :=
  {| cfg := cfg s;
     running := running s;
     server_socket := f (server_socket s);
     http_server_thread := http_server_thread s;
     server_stats := server_stats s;
     ip_delays := ip_delays s;
     ip_connection_counts := ip_connection_counts s;
     events := events s |}.

Definition set_http_server_thread (f : bool → bool) (s : server) : server :=
  {| cfg := cfg s;
     running := running s;
     server_socket := server_socket s;
     http_server_thread := f (http_server_thread s);
     server_stats := server_stats s;
     ip_delays := ip_delays s;
     ip_connection_counts := ip_connection_counts s;
     events := events s |}.

Definition set_stats (f : stats → stats) (s : server) : server :=
  {| cfg := cfg s;
     running := running s;
     server_socket := server_socket s;
     http_server_thread := http_server_thread s;
     server_stats := f (server_stats s);
     ip_delays := ip_delays s;
     ip_connection_counts := ip_connection_counts s;
     events := events s |}.

Definition set_ip_delays (f : gmap string Q → gmap string Q) (s : server) : server :=
  {| cfg := cfg s;
     running := running s;
     server_socket := server_socket s;
     http_server_thread := http_server_thread s;
     server_stats := server_stats s;
     ip_delays := f (ip_delays s);
     ip_connection_counts := ip_connection_counts s;
     events := events s |}.

Definition set_ip_connection_counts (f : gmap string Z → gmap string Z) (s : server) : server :=
  {| cfg := cfg s;
     running := running s;
     server_socket := server_socket s;
     http_server_thread := http_server_thread s;
     server_stats := server_stats s;
     ip_delays := ip_delays s;
     ip_connection_counts := f (ip_connection_counts s);
     events := events s |}.

Definition set_events (f : list event → list event) (s : server) : server :=
  {| cfg := cfg s;
     running := running s;
     server_socket := server_socket s;
     http_server_thread := http_server_thread s;
     server_stats := server_stats s;
     ip_delays := ip_delays s;
     ip_connection_counts := ip_connection_counts s;
     events := f (events s) |}.

Definition add_event (e : event) : server → server :=
  set_events (λ l, l ++ [e]).

(** [counter[key] += 1] on a [Counter]: a missing key counts as zero and is
    appended, a present key is updated in place. *)
Fixpoint counter_incr (key : string) (c : list (string * Z)) : list (string * Z) :=
  match c with
  | [] => [(key, 1)]
  | (k, n) :: rest =>
      if String.eqb k key then (k, n + 1) :: rest
      else (k, n) :: counter_incr key rest
  end.

Fixpoint counter_get (key : string) (c : list (string * Z)) : Z :=
  match c with
  | [] => 0
  | (k, n) :: rest => if String.eqb k key then n else counter_get key rest
  end.

(** ** The monad of handler code *)

Abbreviation M := (ST server).

Definition emit (e : event) : M unit := modify (add_event e).
Definition logger (lvl : level) (r : log_record) : M unit := emit (Log lvl r).

(** [socket.settimeout(value)] with an integer number of seconds, as on Linux
    (where sockets wait with [poll]).  The value is first converted to the
    nanoseconds of the C time type (64 bits, signed): a value whose
    nanoseconds do not fit raises [OverflowError]; then a negative value
    raises [ValueError]. *)
Definition settimeout (value : Z) : M unit :=
  if (value <? -9223372036) || (9223372036 <? value) then raise OverflowError
  else if value <? 0 then raise ValueError
  else mret tt.

(** ** The environment of one accepted connection *)

(** What one call of [client_socket.recv(1024)] does: it returns bytes (none
    when the peer has closed), times out, or fails with another socket error. *)
Inductive recv_result : Type :=
| RecvData (data : list byte)
| RecvTimeout
| RecvError.

Record conn_env : Type := ConnEnv {
  (** [setsockopt(SOL_SOCKET, SO_KEEPALIVE, 1)] on the client socket fails *)
  setsockopt_raises : option exn;
  (** the [i]-th call of [send] raises [socket.error] *)
  send_raises : nat → bool;
  (** results of the successive [recv] calls made while [self.running] is
      seen true; when the script is used up, [shutdown] has cleared the flag *)
  recv_script : list recv_result;
  (** [close()] raises *)
  close_raises : bool;
  (** what [time.sleep] does with a duration that is not negative: it returns
      after the duration, or it raises because the platform cannot take the
      duration ([OverflowError] when the nanoseconds do not fit the C time
      type, [OSError] when the system call refuses the deadline; durations of
      about 9.2e9 s and more) *)
  sleep_raises : Q → option exn
}.

(** The exception of [time.sleep(seconds)], if it raises.  The seconds, a
    binary64 value, are multiplied by 1e9 and the product is rounded to
    binary64; a rounded product below the range of the C time type, which
    starts at -2^63 ns, raises [OverflowError] (the products that round below
    -2^63 are those below -2^63 - 1024); then a negative duration raises
    [ValueError]; a duration that is not negative is left to the platform. *)
Definition sleep_error (env : conn_env) (seconds : Q) : option exn :=
  if Py.Qltb (seconds * 1000000000) (- (9223372036854775808 + 1024)) then Some OverflowError
  else if Py.Qltb seconds 0 then Some ValueError
  else sleep_raises env seconds.

(** [time.sleep(seconds)] *)
Definition sleep (env : conn_env) (seconds : Q) : M unit :=
  match sleep_error env seconds with
  | Some e => raise e
  | None => emit (Sleep seconds)
  end.

(** [client_socket.close()] *)
Definition sock_close (env : conn_env) : M unit :=
  emit SockClose;;
  if close_raises env then raise OSError else mret tt.

(** ** The connection handler *)

(** [self.ip_delays[ip]] on the [defaultdict]: a missing key is given
    [self.config["initial_delay"]], stored, and returned. *)
Definition ip_delays_getitem (ip : string) : M Q := λ s,
  match ip_delays s !! ip with
  | Some d => (Ok d, s)
  | None =>
      let d := initial_delay (cfg s) in
      (Ok d, set_ip_delays (insert ip d) s)
  end.

(** [self.ip_connection_counts[ip] += 1] on [defaultdict(int)]. *)
Definition ip_connection_counts_incr (ip : string) : M Z := λ s,
  let n := default 0 (ip_connection_counts s !! ip) + 1 in
  (Ok n, set_ip_connection_counts (insert ip n) s).

(** [send_ssh_banner]: the loop over the characters of the banner, [i] being
    the number of [send] calls made so far.  A socket error leaves the loop;
    any other exception is not caught here. *)
Fixpoint banner_loop (env : conn_env) (delay : Q) (i : nat) (chars : list ascii) : M unit :=
  match chars with
  | [] => mret tt
  | char :: rest =>
      if send_raises env i then mret tt
      else
        emit (Send char);;
        sleep env delay;;
        banner_loop env delay (S i) rest
  end.

Definition CRLF : string := String (ascii_of_nat 13) (String (ascii_of_nat 10) EmptyString).

Definition send_ssh_banner (env : conn_env) : M unit :=
  c ← gets cfg;
  let banner := (ssh_banner c ++ CRLF)%string in
  banner_loop env (banner_delay c) 0 (list_ascii_of_string banner).

(** [b'...[truncated]'] *)
Definition truncated_marker : list byte := list_byte_of_string "...[truncated]".

(** The body of one iteration of the monitoring loop after a non-empty read:
    the bytes handed to the logger and the buffer kept for the next read. *)
Definition monitor_step (max_len : Z) (buffer data : list byte) : list byte * list byte :=
  let buffer := buffer ++ data in
  let log_data :=
    if max_len <? Py.len buffer
    then Py.slice_to buffer max_len ++ truncated_marker
    else buffer in
  let buffer :=
    if max_len * 2 <? Py.len buffer
    then Py.slice_from buffer (- max_len)
    else buffer in
  (log_data, buffer).

(** [monitor_connection]: the loop, returning the local [buffer] at loop exit.
    The message logged is the decoding of [log_data]; the record [LogData]
    carries the bytes that are decoded. *)
Fixpoint monitor_loop (client_ip : string) (script : list recv_result)
    (buffer : list byte) : M (list byte) :=
  match script with
  | [] => mret buffer
  | r :: rest =>
      run ← gets running;
      if negb run then mret buffer
      else
        match r with
        | RecvData [] => mret buffer
        | RecvData data =>
            c ← gets cfg;
            let '(log_data, buffer') := monitor_step (max_input_length c) buffer data in
            logger INFO (LogData client_ip log_data);;
            monitor_loop client_ip rest buffer'
        | RecvTimeout => monitor_loop client_ip rest buffer
        | RecvError => mret buffer
        end
  end.

Definition monitor_connection (env : conn_env) (client_ip : string) : M unit :=
  monitor_loop client_ip (recv_script env) [];; mret tt.

(** [min(self.ip_delays[client_ip], self.config['max_delay'])] *)
Definition current_delay (client_ip : string) : M Q :=
  d ← ip_delays_getitem client_ip;
  c ← gets cfg;
  mret (Py.min d (max_delay c)).

(** The first part of the [try] block of [handle_client]: the options of the
    client socket, the statistics, and the adaptive delay. *)
Definition handle_client_enter (env : conn_env) (client_address : string * Z) : M unit :=
  let client_ip := client_address.1 in
  c ← gets cfg;
  settimeout (connection_timeout c);;
  when (tcp_keepalive c) (raise_if (setsockopt_raises env));;
  modify (set_stats (λ st,
    {| total_connections := total_connections st + 1;
       active_connections := active_connections st + 1;
       connections_per_ip := counter_incr client_ip (connections_per_ip st);
       start_time := start_time st |}));;
  attempt ← ip_connection_counts_incr client_ip;
  delay ← current_delay client_ip;
  logger INFO (LogConnection client_ip client_address.2 attempt delay);;
  when (Py.Qltb 0 delay) (sleep env delay).

(** The [try] block of [handle_client]. *)
Definition handle_client_try (env : conn_env) (client_address : string * Z) : M unit :=
  handle_client_enter env client_address;;
  send_ssh_banner env;;
  monitor_connection env client_address.1.

(** The three [except] clauses of [handle_client]. *)
Definition handle_client_except (client_ip : string) (e : exn) : M unit :=
  match e with
  | SocketTimeout => logger INFO (LogTimedOut client_ip)
  | ConnectionResetError => logger INFO (LogReset client_ip)
  | _ => logger ERROR (LogHandlerError client_ip e)
  end.

(** The [finally] block of [handle_client]. *)
Definition handle_client_finally (env : conn_env) (client_ip : string) : M unit :=
  d ← ip_delays_getitem client_ip;
  c ← gets cfg;
  modify (set_ip_delays (insert client_ip (Py.min (d + delay_increment c)%Q (max_delay c))));;
  try_except (sock_close env) (λ _, mret tt);;
  modify (set_stats (λ st,
    {| total_connections := total_connections st;
       active_connections := active_connections st - 1;
       connections_per_ip := connections_per_ip st;
       start_time := start_time st |}));;
  logger INFO (LogClosed client_ip).

(** The [try] block with its [except] clauses. *)
Definition handle_client_body (env : conn_env) (client_address : string * Z) : M unit :=
  try_except (handle_client_try env client_address)
             (handle_client_except client_address.1).

Definition handle_client (env : conn_env) (client_address : string * Z) : M unit :=
  try_finally (handle_client_body env client_address)
              (handle_client_finally env client_address.1).

(** The socket set-up at the head of the [try] block succeeds. *)
Definition setup_ok (c : config) (env : conn_env) : bool :=
  (0 <=? connection_timeout c) && (connection_timeout c <=? 9223372036)
  && (negb (tcp_keepalive c) || bool_decide (setsockopt_raises env = None)).

(** Handlers that run one after the other, each to its end. *)
Definition run_sessions (sessions : list (conn_env * (string * Z))) (s : server) : server :=
  fold_left (λ s session, (handle_client session.1 session.2 s).2) sessions s.

(** The number of sessions that came from [ip]. *)
Definition sessions_from (ip : string) (sessions : list (conn_env * (string * Z))) : nat :=
  length (filter (λ session, session.2.1 = ip) sessions).

(** The state in which handlers run: [start] has set [running]. *)
Definition serving (c : config) (now : datetime) : server :=
  set_running (λ _, true) (new_server c now).

(** Runs in which handler threads are switched only between blocks: the [try]
    block of a handler (with its [except] clauses) and the [finally] block of
    a handler are the units that alternate, and [shutdown] may clear
    [running] in between.  These are runs of the program, so a state reached
    here is a state of the program; they are not all its runs, since threads
    are also switched inside a block (see [access_step] for [ip_delays]). *)
Inductive step : server → server → Prop :=
| step_body s env client_address :
    step s (handle_client_body env client_address s).2
| step_finally s env client_ip :
    step s (handle_client_finally env client_ip s).2
| step_shutdown s :
    step s (set_running (λ _, false) s).

(** The states the server goes through once it serves. *)
Definition reachable (c : config) (now : datetime) (s : server) : Prop :=
  rtc step (serving c now) s.

(** What [self.ip_delays[ip]] evaluates to in state [s]. *)
Definition stored_delay (s : server) (ip : string) : Q :=
  default (initial_delay (cfg s)) (ip_delays s !! ip).

(** The units [send_ssh_banner] gets through: the characters before the first
    [send] that raises, [i] being the number of calls made so far. *)
Fixpoint units_sent (env : conn_env) (i : nat) (chars : list ascii) : list ascii :=
  match chars with
  | [] => []
  | char :: rest =>
      if send_raises env i then [] else char :: units_sent env (S i) rest
  end.

(** The events of a banner transmission: each unit sent is followed by the
    pause. *)
Definition paced (delay : Q) (units : list ascii) : list event :=
  flat_map (λ char, [Send char; Sleep delay]) units.

(** The characters [send_ssh_banner] iterates over. *)
Definition banner_chars (c : config) : list ascii :=
  list_ascii_of_string (ssh_banner c ++ CRLF).

(** ** Listener, shutdown and entry point *)

(** How the accept loop of [start] comes to an end. *)
Inductive stop_cause : Type :=
| AcceptError                 (** [accept] raises [socket.error] *)
| Signal (signum : Z)         (** SIGINT or SIGTERM arrives while [accept] blocks:
                                  [signal_handler] runs, then [accept] raises *)
| ThreadStartError.           (** [Thread.start] raises [RuntimeError] *)

Record start_env : Type := StartEnv {
  (** creating the listening socket or setting its options raises *)
  socket_raises : option exn;
  bind_raises : option exn;
  listen_raises : option exn;
  (** connections accepted, in order, before the loop ends *)
  accepted : list (string * Z);
  stop : stop_cause;
  (** the statistics thread is still alive after [join(timeout=5)] *)
  http_stats_stays_alive : bool
}.

(** [start_http_stats_server] *)
Definition start_http_stats_server : M unit :=
  c ← gets cfg;
  if enable_http_stats c then
    modify (set_http_server_thread (λ _, true));;
    emit (HttpStatsStart (http_stats_port c));;
    logger INFO (LogHttpStatsAttempt (http_stats_port c))
  else mret tt.

(** [Counter.most_common(n)]: the [n] entries with the highest counts,
    highest first, entries of equal count in the order of their insertion. *)
Fixpoint insert_by_count (kv : string * Z) (sorted : list (string * Z))
    : list (string * Z) :=
  match sorted with
  | [] => [kv]
  | x :: rest =>
      if x.2 <=? kv.2 then kv :: x :: rest else x :: insert_by_count kv rest
  end.

Definition most_common (n : nat) (c : list (string * Z)) : list (string * Z) :=
  take n (foldr insert_by_count [] c).

(** [shutdown]; the wait for the handlers is one event.  The statistics
    logged are those the handler threads have left by then. *)
Definition shutdown (env : start_env) : M unit :=
  run ← gets running;
  if negb run then mret tt
  else
    logger INFO LogShuttingDown;;
    modify (set_running (λ _, false));;
    sock ← gets server_socket;
    when sock (emit ServerSocketClose);;
    http ← gets http_server_thread;
    when http
      (emit HttpStatsShutdown;;
       when (http_stats_stays_alive env) (logger WARNING LogHttpStatsStillAlive));;
    emit DrainHandlers;;
    st ← gets server_stats;
    logger INFO (LogFinalStatistics (total_connections st)
                   (most_common 5 (connections_per_ip st)));;
    logger INFO LogShutdownComplete.

(** [signal_handler] *)
Definition signal_handler (env : start_env) (signum : Z) : M unit :=
  logger INFO (LogSignal signum);;
  shutdown env.

(** The [while self.running] loop of [start].  The handler of an accepted
    connection runs in a thread of its own: starting it is the event [Spawn],
    and what it does to the shared state is not part of what the thread of
    [start] computes. *)
Fixpoint accept_loop (env : start_env) (conns : list (string * Z)) : M unit :=
  match conns with
  | client_address :: rest =>
      emit (Spawn client_address);;
      accept_loop env rest
  | [] =>
      match stop env with
      | AcceptError =>
          run ← gets running;
          when run (logger ERROR LogSocketError)
      | Signal signum =>
          signal_handler env signum;;
          run ← gets running;
          when run (logger ERROR LogSocketError)
      | ThreadStartError => raise RuntimeError
      end
  end.

(** [start] *)
Definition start (env : start_env) : M unit :=
  try_finally
    (try_except
       (raise_if (socket_raises env);;
        modify (set_server_socket (λ _, true));;
        c ← gets cfg;
        raise_if (bind_raises env);;
        emit (Bind (port c));;
        raise_if (listen_raises env);;
        emit (Listen (max_connections c));;
        modify (set_running (λ _, true));;
        logger INFO (LogListening (port c));;
        when (enable_http_stats c) start_http_stats_server;;
        accept_loop env (accepted env))
       (λ e, logger ERROR (LogFailedToStart e)))
    (shutdown env).

(** Command line, after [argparse]. *)
Record args : Type := Args {
  arg_config : option string;
  arg_port : option Z
}.

Record main_env : Type := MainEnv {
  (** the file found under a path *)
  file_system : string → config_file;
  (** [setup_logging] raises (for instance the log file cannot be opened) *)
  setup_logging_raises : option exn;
  now : datetime;
  listener : start_env
}.

(** [DeadlockSSH.__init__]: the object, or the exception that leaves the
    constructor, with the lines printed meanwhile. *)
Definition DeadlockSSH_init (config_file : option string) (env : main_env)
    : result server * list console_line :=
  let '(c, out) :=
    match config_file with
    | Some name =>
        if String.eqb name EmptyString then (default_config, [])
        else load_config name (file_system env name) default_config
    | None => (default_config, [])
    end in
  match setup_logging_raises env with
  | Some e => (Raise e, out)
  | None => (Ok (add_event (Log INFO LogInitialized) (new_server c (now env))), out)
  end.

(** What [main] leaves behind: the exit status of the process, the lines
    printed, and the server object when it was built. *)
Record outcome : Type := Outcome {
  exit_status : Z;
  stdout : list console_line;
  final : option server
}.

(** [main], after [parse_args] has returned the arguments. *)
Definition main (a : args) (env : main_env) : outcome :=
  match DeadlockSSH_init (arg_config a) env with
  | (Raise e, out) =>
      {| exit_status := 1; stdout := out ++ [PrintFatalError e]; final := None |}
  | (Ok honeypot, out) =>
      let honeypot :=
        match arg_port a with
        | Some p => if p =? 0 then honeypot else set_cfg (with_port p) honeypot
        | None => honeypot
        end in
      match start (listener env) honeypot with
      | (Ok _, s) => {| exit_status := 0; stdout := out; final := Some s |}
      | (Raise e, s) =>
          {| exit_status := 1; stdout := out ++ [PrintFatalError e]; final := Some s |}
      end
  end.



(** ** The statistics endpoint ([http_stats_server.py]) *)

(** The values [json.dumps] is given here. *)
#[warnings="-register-all"]
Inductive json : Type :=
| JInt (n : Z)
| JString (s : string)
| JObject (fields : list (string * json)).

Definition hex_digit (n : N) : ascii :=
  match n with
  | 0 => "0" | 1 => "1" | 2 => "2" | 3 => "3" | 4 => "4" | 5 => "5" | 6 => "6"
  | 7 => "7" | 8 => "8" | 9 => "9" | 10 => "a" | 11 => "b" | 12 => "c"
  | 13 => "d" | 14 => "e" | _ => "f"
  end%N%char.

(** One character of a JSON string under [ensure_ascii=True]. *)
Definition json_escape_char (c : ascii) : string :=
  let n := N_of_ascii c in
  if (n =? 34)%N then String "\" (String c EmptyString)
  else if (n =? 92)%N then "\\"
  else if (n =? 10)%N then "\n"
  else if (n =? 13)%N then "\r"
  else if (n =? 9)%N then "\t"
  else if (n =? 8)%N then "\b"
  else if (n =? 12)%N then "\f"
  else if ((32 <=? n) && (n <=? 126))%N then String c EmptyString
  else String "\" (String "u" (String "0" (String "0"
         (String (hex_digit (n / 16)) (String (hex_digit (n mod 16)) EmptyString))))).

Fixpoint json_escape (s : string) : string :=
  match s with
  | EmptyString => EmptyString
  | String c rest => (json_escape_char c ++ json_escape rest)%string
  end.

Definition json_quote (s : string) : string :=
  (String (ascii_of_nat 34) (json_escape s) ++ String (ascii_of_nat 34) EmptyString)%string.

Fixpoint spaces (n : nat) : string :=
  match n with
  | O => EmptyString
  | S n => String " " (spaces n)
  end.

Definition newline : string := String (ascii_of_nat 10) EmptyString.

(** [json.dumps(j, indent=4)], at nesting depth [depth]. *)
Fixpoint dumps_at (depth : nat) (j : json) : string :=
  match j with
  | JInt n => pretty n
  | JString s => json_quote s
  | JObject [] => "{}"
  | JObject fields =>
      let fix items (fs : list (string * json)) : string :=
        match fs with
        | [] => EmptyString
        | [(k, v)] =>
            (spaces (4 * S depth) ++ json_quote k ++ ": " ++ dumps_at (S depth) v)%string
        | (k, v) :: rest =>
            (spaces (4 * S depth) ++ json_quote k ++ ": " ++ dumps_at (S depth) v
               ++ "," ++ newline ++ items rest)%string
        end in
      ("{" ++ newline ++ items fields ++ newline ++ spaces (4 * depth) ++ "}")%string
  end.

Definition dumps (j : json) : string := dumps_at 0 j.

(** [str(n).zfill(width)] for a non-negative [n]: the [%0wd] of [isoformat]. *)
Definition zero_pad (width : nat) (n : Z) : string :=
  let digits := pretty n in
  (String.concat EmptyString (repeat "0"%string (width - String.length digits)) ++ digits)%string.

(** [datetime.isoformat()] of a naive [datetime]. *)
Definition isoformat (d : datetime) : string :=
  (zero_pad 4 (year d) ++ "-" ++ zero_pad 2 (month d) ++ "-" ++ zero_pad 2 (day d)
   ++ "T" ++ zero_pad 2 (hour d) ++ ":" ++ zero_pad 2 (minute d) ++ ":"
   ++ zero_pad 2 (second d)
   ++ (if (microsecond d =? 0)%Z then EmptyString
       else "." ++ zero_pad 6 (microsecond d)))%string.

(** The members of [current_stats] in [do_GET]: the copy of the dictionary
    with [start_time] and [connections_per_ip] replaced. *)
Definition stats_fields (stats_ref : stats) : list (string * json) :=
  [ ("total_connections"%string, JInt (total_connections stats_ref));
    ("active_connections"%string, JInt (active_connections stats_ref));
    ("connections_per_ip"%string,
      JObject (map (λ kv : string * Z, (kv.1, JInt kv.2)) (connections_per_ip stats_ref)));
    ("start_time"%string, JString (isoformat (start_time stats_ref))) ].

Definition current_stats (stats_ref : stats) : json :=
  JObject (stats_fields stats_ref).

Record http_response : Type := HttpResponse {
  status : Z;
  headers : list (string * string);
  body : string
}.

Inductive http_log : Type :=
| LogStatsRequest (client : string)
| LogNotFound (client : string) (path : string).

(** [StatsHandler.do_GET] *)
Definition do_GET (stats_ref : stats) (client : string) (path : string)
    : http_response * (level * http_log) :=
  if String.eqb path "/stats" then
    ({| status := 200;
        headers := [("Content-type"%string, "application/json"%string)];
        body := dumps (current_stats stats_ref) |},
     (INFO, LogStatsRequest client))
  else
    ({| status := 404;
        headers := [("Content-type"%string, "text/html"%string)];
        body := "<h1>404 Not Found</h1>" |},
     (WARNING, LogNotFound client path)).

(** The value stored under [key] in a JSON object. *)
Fixpoint json_get (key : string) (fields : list (string * json)) : option json :=
  match fields with
  | [] => None
  | (k, v) :: rest => if String.eqb k key then Some v else json_get key rest
  end.


(** The state of [handle_client] at line 266, after the connection has been
    counted and logged and before the adaptive delay is slept, written out
    field by field. *)
Definition connected (client_address : string * Z) (s : server) : server :=
  let client_ip := client_address.1 in
  let attempt := default 0 (ip_connection_counts s !! client_ip) + 1 in
  let delay := Py.min (stored_delay s client_ip) (max_delay (cfg s)) in
  {| cfg := cfg s;
     running := running s;
     server_socket := server_socket s;
     http_server_thread := http_server_thread s;
     server_stats :=
       {| total_connections := total_connections (server_stats s) + 1;
          active_connections := active_connections (server_stats s) + 1;
          connections_per_ip := counter_incr client_ip (connections_per_ip (server_stats s));
          start_time := start_time (server_stats s) |};
     ip_delays := <[client_ip := stored_delay s client_ip]> (ip_delays s);
     ip_connection_counts := <[client_ip := attempt]> (ip_connection_counts s);
     events :=
       events s ++ [Log INFO (LogConnection client_ip client_address.2 attempt delay)] |}.

(** The state [handle_client_enter] leaves when the socket set-up succeeds
    and [time.sleep] accepts the adaptive delay, written out field by field. *)
Definition entered (client_address : string * Z) (s : server) : server :=
  let client_ip := client_address.1 in
  let attempt := default 0 (ip_connection_counts s !! client_ip) + 1 in
  let delay := Py.min (stored_delay s client_ip) (max_delay (cfg s)) in
  {| cfg := cfg s;
     running := running s;
     server_socket := server_socket s;
     http_server_thread := http_server_thread s;
     server_stats :=
       {| total_connections := total_connections (server_stats s) + 1;
          active_connections := active_connections (server_stats s) + 1;
          connections_per_ip := counter_incr client_ip (connections_per_ip (server_stats s));
          start_time := start_time (server_stats s) |};
     ip_delays := <[client_ip := stored_delay s client_ip]> (ip_delays s);
     ip_connection_counts := <[client_ip := attempt]> (ip_connection_counts s);
     events :=
       events s
       ++ Log INFO (LogConnection client_ip client_address.2 attempt delay)
          :: (if Py.Qltb 0 delay then [Sleep delay] else []) |}.

(** The state the [finally] block of [handle_client] leaves, written out
    field by field. *)
Definition torn_down (client_ip : string) (s : server) : server :=
  {| cfg := cfg s;
     running := running s;
     server_socket := server_socket s;
     http_server_thread := http_server_thread s;
     server_stats :=
       {| total_connections := total_connections (server_stats s);
          active_connections := active_connections (server_stats s) - 1;
          connections_per_ip := connections_per_ip (server_stats s);
          start_time := start_time (server_stats s) |};
     ip_delays :=
       <[client_ip := Py.min (stored_delay s client_ip + delay_increment (cfg s))%Q
                             (max_delay (cfg s))]> (ip_delays s);
     ip_connection_counts := ip_connection_counts s;
     events := events s ++ [SockClose; Log INFO (LogClosed client_ip)] |}.

(** ** The bookkeeping of the delays, over the arithmetic of the seconds *)

(** The three delay options of the configuration. *)
Record delay_options (num : Type) : Type := DelayOptions {
  opt_initial_delay : num;
  opt_delay_increment : num;
  opt_max_delay : num
}.
Arguments DelayOptions {num}.
Arguments opt_initial_delay {num}.
Arguments opt_delay_increment {num}.
Arguments opt_max_delay {num}.

Section delays.
Context {num : Type} (add : num → num → num) (ltb : num → num → bool).

(** The builtin [min(a, b)]. *)
Definition min_of (a b : num) : num := if ltb b a then b else a.

(** [self.ip_delays[ip]]: the value and the dictionary after the access. *)
Definition delays_getitem (o : delay_options num) (ip : string) (m : gmap string num)
    : num * gmap string num :=
  match m !! ip with
  | Some d => (d, m)
  | None => (opt_initial_delay o, <[ip := opt_initial_delay o]> m)
  end.

(** Lines 255-258: [current_delay]. *)
Definition delay_at_connect (o : delay_options num) (ip : string) (m : gmap string num)
    : num * gmap string num :=
  let '(d, m) := delays_getitem o ip m in
  (min_of d (opt_max_delay o), m).

(** Lines 285-288: the update in the [finally] block. *)
Definition delay_at_close (o : delay_options num) (ip : string) (m : gmap string num)
    : gmap string num :=
  let '(d, m) := delays_getitem o ip m in
  <[ip := min_of (add d (opt_delay_increment o)) (opt_max_delay o)]> m.

(** One handler from its start to its end, as far as [ip_delays] goes.  The
    flag says whether the socket set-up succeeded: only then is the delay of
    the connection computed (and logged); the [finally] block runs in both
    cases. *)
Definition delay_of_session (o : delay_options num) (session : bool * string)
    (m : gmap string num) : option num * gmap string num :=
  if session.1 then
    let '(d, m) := delay_at_connect o session.2 m in
    (Some d, delay_at_close o session.2 m)
  else (None, delay_at_close o session.2 m).

(** Handlers that run one after the other. *)
Definition delays_after (o : delay_options num) (sessions : list (bool * string))
    (m : gmap string num) : gmap string num :=
  fold_left (λ m session, (delay_of_session o session m).2) sessions m.

(** The delays computed by handlers that run one after the other. *)
Fixpoint observed_delays (o : delay_options num) (sessions : list (bool * string))
    (m : gmap string num) : list num :=
  match sessions with
  | [] => []
  | session :: rest =>
      let '(d, m) := delay_of_session o session m in
      match d with
      | Some d => d :: observed_delays o rest m
      | None => observed_delays o rest m
      end
  end.

(** The number of cycles of [ip] among the sessions. *)
Definition cycles (ip : string) (sessions : list (bool * string)) : nat :=
  length (filter (λ session, session.2 = ip) sessions).

(** The value stored for an address after [n] of its cycles: [n] times the
    capped addition of the increment, from the initial delay. *)
Definition accumulated_delay (o : delay_options num) (n : nat) : num :=
  Nat.iter n (λ d, min_of (add d (opt_delay_increment o)) (opt_max_delay o))
    (opt_initial_delay o).

End delays.

(** The delay options of a configuration. *)
Definition delay_options_of (c : config) : delay_options Q :=
  {| opt_initial_delay := initial_delay c;
     opt_delay_increment := delay_increment c;
     opt_max_delay := max_delay c |}.

(** The formula of the specification,
    [min(initial_delay + n * delay_increment, max_delay)], in binary64. *)
Definition closed_form_delay (o : delay_options float) (n : float) : float :=
  min_of PrimFloat.ltb
    (PrimFloat.add (opt_initial_delay o) (PrimFloat.mul n (opt_delay_increment o)))
    (opt_max_delay o).

(** ** The accesses of the handler threads to [ip_delays] *)

(** Where a handler looks its address up in [self.ip_delays]: at line 256,
    for the delay of the connection, or at line 286, in the [finally]
    block. *)
Inductive access : Type := AtConnect | AtClose.

(** The dictionary, together with what handler threads hold between two of
    their accesses: the look-ups that found no entry and whose default, which
    the [lambda] of line 80 computes, is not stored yet; and the values read
    at line 286 whose capped sum is not stored yet. *)
Record delay_store : Type := DelayStore {
  stored : gmap string Q;
  in_factory : list (string * access);
  read_at_close : list (string * Q)
}.

Definition empty_store : delay_store :=
  {| stored := ∅; in_factory := []; read_at_close := [] |}.

(** The dictionary when no handler is in the middle of an access. *)
Definition store_of (m : gmap string Q) : delay_store :=
  {| stored := m; in_factory := []; read_at_close := [] |}.

(** One access of one handler thread; between two accesses of a thread any
    other thread may run.  A look-up at line 256 that finds an entry changes
    nothing and is left out.  [__missing__] stores the default whatever the
    dictionary holds by then, and line 285 stores the capped sum of the value
    its thread has read. *)
Inductive access_step (c : config) : delay_store → delay_store → Prop :=
| lookup_miss t ip a :
    stored t !! ip = None →
    access_step c t
      {| stored := stored t;
         in_factory := (ip, a) :: in_factory t;
         read_at_close := read_at_close t |}
| insert_default_at_connect t ip f1 f2 :
    in_factory t = f1 ++ (ip, AtConnect) :: f2 →
    access_step c t
      {| stored := <[ip := initial_delay c]> (stored t);
         in_factory := f1 ++ f2;
         read_at_close := read_at_close t |}
| insert_default_at_close t ip f1 f2 :
    in_factory t = f1 ++ (ip, AtClose) :: f2 →
    access_step c t
      {| stored := <[ip := initial_delay c]> (stored t);
         in_factory := f1 ++ f2;
         read_at_close := (ip, initial_delay c) :: read_at_close t |}
| lookup_hit_at_close t ip d :
    stored t !! ip = Some d →
    access_step c t
      {| stored := stored t;
         in_factory := in_factory t;
         read_at_close := (ip, d) :: read_at_close t |}
| store_at_close t ip d r1 r2 :
    read_at_close t = r1 ++ (ip, d) :: r2 →
    access_step c t
      {| stored := <[ip := Py.min (d + delay_increment c)%Q (max_delay c)]> (stored t);
         in_factory := in_factory t;
         read_at_close := r1 ++ r2 |}.

(** The dictionaries the handler threads can produce, however they are
    switched. *)
Definition store_reachable (c : config) (t : delay_store) : Prop :=
  rtc (access_step c) empty_store t.

(** Every value stored or held by a thread lies in [[0, max_delay]]. *)
Definition store_within_bounds (c : config) (t : delay_store) : Prop :=
  (∀ ip d, stored t !! ip = Some d → (0 <= d <= max_delay c)%Q)
  ∧ (∀ ip d, (ip, d) ∈ read_at_close t → (0 <= d <= max_delay c)%Q).

(** Concrete environments and configurations used in the examples. *)

(** A peer that lets the banner through and then closes the connection. *)
Definition peer_closes : conn_env :=
  {| setsockopt_raises := None;
     send_raises := λ _, false;
     recv_script := [RecvData []];
     close_raises := false;
     sleep_raises := λ seconds,
       if Py.Qltb seconds 9000000000 then None else Some OverflowError |}.

(** A connection on which setting the keepalive option fails. *)
Definition setup_fails : conn_env :=
  {| setsockopt_raises := Some OSError;
     send_raises := λ _, false;
     recv_script := [RecvData []];
     close_raises := false;
     sleep_raises := λ seconds,
       if Py.Qltb seconds 9000000000 then None else Some OverflowError |}.

Definition boot : datetime :=
  {| year := 2024; month := 1; day := 2; hour := 3; minute := 4; second := 5;
     microsecond := 0 |}.

(** [initial_delay=10.0], [delay_increment=-1.0], [max_delay=5.0]. *)
Definition shrinking_config : config :=
  with_max_delay 5.0%Q (with_delay_increment (-1.0)%Q (with_initial_delay 10.0%Q default_config)).

(** [k] connections from [10.0.0.5], one after the other. *)
Definition repeated (k : nat) : list (conn_env * (string * Z)) :=
  repeat (peer_closes, ("10.0.0.5"%string, 40000)) k.

(** A file whose section sets [port = 2223] and gives [max_connections] a
    value that is not an integer. *)
Definition half_valid_section : honeypot_section :=
  {| o_port := Value 2223;
     o_max_connections := Unconvertible;
     o_ssh_banner := Missing;
     o_banner_delay := Missing;
     o_initial_delay := Missing;
     o_delay_increment := Missing;
     o_max_delay := Missing;
     o_log_file := Missing;
     o_log_level := Missing;
     o_max_log_size := Missing;
     o_log_backup_count := Missing;
     o_max_input_length := Missing;
     o_connection_timeout := Missing;
     o_enable_http_stats := Missing;
     o_http_stats_port := Missing;
     o_tcp_keepalive := Missing |}.

(** No option on the command line. *)
Definition no_args : args := {| arg_config := None; arg_port := None |}.

(** The configured port is in use: [bind] raises. *)
Definition port_in_use : main_env :=
  {| file_system := λ _, Unreadable;
     setup_logging_raises := None;
     now := boot;
     listener :=
       {| socket_raises := None;
          bind_raises := Some OSError;
          listen_raises := None;
          accepted := [];
          stop := AcceptError;
          http_stats_stays_alive := false |} |}.

(** One connection is served, then SIGTERM arrives. *)
Definition terminated_by_signal : main_env :=
  {| file_system := λ _, Unreadable;
     setup_logging_raises := None;
     now := boot;
     listener :=
       {| socket_raises := None;
          bind_raises := None;
          listen_raises := None;
          accepted := [("10.0.0.5"%string, 40000)];
          stop := Signal 15;
          http_stats_stays_alive := false |} |}.

(** One connection from [10.0.0.5], then one from [10.0.0.6]. *)
Definition two_sources : list (conn_env * (string * Z)) :=
  [(peer_closes, ("10.0.0.5"%string, 40000)); (peer_closes, ("10.0.0.6"%string, 40001))].

(** [s'] differs from [s] by events appended at the end. *)
Definition extends (s s' : server) : Prop :=
  cfg s' = cfg s ∧ running s' = running s
  ∧ server_socket s' = server_socket s
  ∧ http_server_thread s' = http_server_thread s
  ∧ server_stats s' = server_stats s
  ∧ ip_delays s' = ip_delays s
  ∧ ip_connection_counts s' = ip_connection_counts s
  ∧ ∃ evs, events s' = events s ++ evs.

(** ** Further definitions used in the statements below *)

(** The sum of the counts of a [Counter]. *)
Definition counter_total (c : list (string * Z)) : Z :=
  foldr (λ kv acc, kv.2 + acc) 0 c.

(** The keys of a [Counter], in insertion order. *)
Definition counter_keys (c : list (string * Z)) : list string := c.*1.

(** The sessions whose socket set-up succeeds, and those where it fails. *)
Definition succeeded (c : config) (sessions : list (conn_env * (string * Z)))
    : list (conn_env * (string * Z)) :=
  filter (λ session, setup_ok c session.1 = true) sessions.

Definition failed (c : config) (sessions : list (conn_env * (string * Z)))
    : list (conn_env * (string * Z)) :=
  filter (λ session, setup_ok c session.1 = false) sessions.

(** [self.ip_connection_counts[ip]] without the insertion of the default. *)
Definition connection_count (s : server) (ip : string) : Z :=
  default 0 (ip_connection_counts s !! ip).

(** The record a failed handler writes for the exception that ended its [try]
    block, as the [except] clauses choose it. *)
Definition failure_record (client_ip : string) (e : exn) : event :=
  match e with
  | SocketTimeout => Log INFO (LogTimedOut client_ip)
  | ConnectionResetError => Log INFO (LogReset client_ip)
  | _ => Log ERROR (LogHandlerError client_ip e)
  end.

(** A [recv] that timed out. *)
Definition is_timeout (r : recv_result) : bool :=
  match r with
  | RecvTimeout => true
  | _ => false
  end.

(** The byte strings logged as received data in a trace, in order. *)
Definition data_records (evs : list event) : list (list byte) :=
  omap (λ e, match e with
             | Log _ (LogData _ d) => Some d
             | _ => None
             end) evs.

(** The successive contents of a buffer that starts as [buffer] and to which
    the chunks are appended one after the other. *)
Fixpoint accumulated (buffer : list byte) (chunks : list (list byte)) : list (list byte) :=
  match chunks with
  | [] => []
  | data :: rest => (buffer ++ data) :: accumulated (buffer ++ data) rest
  end.

(** The first exception among the steps that set the listening socket up. *)
Definition startup_failure (env : start_env) : option exn :=
  match socket_raises env with
  | Some e => Some e
  | None =>
      match bind_raises env with
      | Some e => Some e
      | None => listen_raises env
      end
  end.

(** The events of a [shutdown] that finds the server running with its
    listening socket open, and that logs [total] connections and the summary
    [top] of the most frequent addresses. *)
Definition shutdown_events (env : start_env) (http : bool)
    (total : Z) (top : list (string * Z)) : list event :=
  [Log INFO LogShuttingDown; ServerSocketClose]
  ++ (if http
      then HttpStatsShutdown
           :: (if http_stats_stays_alive env then [Log WARNING LogHttpStatsStillAlive] else [])
      else [])
  ++ [DrainHandlers;
      Log INFO (LogFinalStatistics total top);
      Log INFO LogShutdownComplete].

(** The record or failure that ends the accept loop. *)
Definition stop_event (cause : stop_cause) : event :=
  match cause with
  | AcceptError => Log ERROR LogSocketError
  | Signal signum => Log INFO (LogSignal signum)
  | ThreadStartError => Log ERROR (LogFailedToStart RuntimeError)
  end.

(** The value an option of the file gives to a key whose value was [old]. *)
Definition chosen {A : Type} (v : option_value A) (old : A) : A :=
  match v with
  | Value a => a
  | _ => old
  end.

Definition convertible {A : Type} (v : option_value A) : bool :=
  match v with
  | Unconvertible => false
  | _ => true
  end.

(** Every option of the section is missing or converts. *)
Definition all_convertible (section : honeypot_section) : bool :=
  convertible (o_port section) && convertible (o_max_connections section)
  && convertible (o_ssh_banner section) && convertible (o_banner_delay section)
  && convertible (o_initial_delay section) && convertible (o_delay_increment section)
  && convertible (o_max_delay section) && convertible (o_log_file section)
  && convertible (o_log_level section) && convertible (o_max_log_size section)
  && convertible (o_log_backup_count section) && convertible (o_max_input_length section)
  && convertible (o_connection_timeout section) && convertible (o_enable_http_stats section)
  && convertible (o_http_stats_port section) && convertible (o_tcp_keepalive section).

(** A record of received data from [client_ip]. *)
Definition is_data_record (client_ip : string) (e : event) : Prop :=
  ∃ d, e = Log INFO (LogData client_ip d).

(** Unfolding of the monadic operations. *)
Ltac run :=
  repeat (unfold mbind, ST_bind, mret, ST_ret, gets, modify, raise, raise_if, when,
            emit, logger, try_except, try_finally; cbn [fst snd]).

(** * Properties *)


(** ** Arithmetic of [min] on seconds *)

Lemma Qltb_lt (x y : Q) : Py.Qltb x y = true ↔ (x < y)%Q.
Proof. unfold Py.Qltb, Qlt. apply Z.ltb_lt. Qed.

Lemma Qltb_ge (x y : Q) : Py.Qltb x y = false ↔ (y <= x)%Q.
Proof. unfold Py.Qltb, Qle. rewrite Z.ltb_ge. reflexivity. Qed.

Lemma min_cases (a b : Q) :
  (Py.min a b = a ∧ (a <= b)%Q) ∨ (Py.min a b = b ∧ (b < a)%Q).
Proof.
  unfold Py.min. destruct (Py.Qltb b a) eqn:E.
  - right. split; [reflexivity | by apply Qltb_lt].
  - left. split; [reflexivity | by apply Qltb_ge].
Qed.

Lemma min_le_r (a b : Q) : (Py.min a b <= b)%Q.
Proof. destruct (min_cases a b) as [[-> H] | [-> H]]; lra. Qed.

Lemma min_le_l (a b : Q) : (Py.min a b <= a)%Q.
Proof. destruct (min_cases a b) as [[-> H] | [-> H]]; lra. Qed.

Lemma min_glb (a b x : Q) : (x <= a)%Q → (x <= b)%Q → (x <= Py.min a b)%Q.
Proof. intros Ha Hb. destruct (min_cases a b) as [[-> H] | [-> H]]; lra. Qed.

(** ** Frame properties of handler code *)

Lemma extends_refl s : extends s s.
Proof. repeat split. exists []. by rewrite app_nil_r. Qed.

Lemma extends_trans s1 s2 s3 : extends s1 s2 → extends s2 s3 → extends s1 s3.
Proof.
  intros (?&?&?&?&?&?&?&e1&?) (?&?&?&?&?&?&?&e2&?).
  repeat split; try congruence.
  exists (e1 ++ e2). rewrite app_assoc. congruence.
Qed.

Lemma extends_add_event e s : extends s (add_event e s).
Proof. repeat split. by exists [e]. Qed.

Lemma sleep_extends env d s : extends s (sleep env d s).2.
Proof.
  unfold sleep. destruct (sleep_error env d); run.
  - apply extends_refl.
  - apply extends_add_event.
Qed.

(** [time.sleep] returns for a duration that is not negative and that the
    platform takes. *)
Lemma sleep_error_accepted env d :
  (0 <= d)%Q → sleep_raises env d = None → sleep_error env d = None.
Proof.
  intros Hd Hp. unfold sleep_error.
  assert (Py.Qltb (d * 1000000000) (- (9223372036854775808 + 1024)) = false) as ->.
  { apply Qltb_ge. lra. }
  apply Qltb_ge in Hd. by rewrite Hd.
Qed.

Lemma banner_loop_extends env d chars : ∀ i s, extends s (banner_loop env d i chars s).2.
Proof.
  induction chars as [|c chars IH]; intros i s; cbn [banner_loop].
  - apply extends_refl.
  - destruct (send_raises env i); [apply extends_refl|].
    run. unfold sleep. destruct (sleep_error env d) eqn:E; run.
    + apply extends_add_event.
    + eapply extends_trans; [|apply IH].
      eapply extends_trans; apply extends_add_event.
Qed.

Lemma set_events_id s : set_events (λ l, l ++ []) s = s.
Proof. destruct s. unfold set_events. cbn. by rewrite app_nil_r. Qed.

Lemma set_events_add e f s :
  set_events f (add_event e s) = set_events (λ l, f (l ++ [e])) s.
Proof. reflexivity. Qed.

(** With a pause that [time.sleep] accepts, the loop of [send_ssh_banner]
    returns normally after the units before the first failing [send]. *)
Lemma banner_loop_spec env d chars :
  sleep_error env d = None →
  ∀ i s, banner_loop env d i chars s
         = (Ok tt, set_events (λ l, l ++ paced d (units_sent env i chars)) s).
Proof.
  intros Hd.
  induction chars as [|c chars IH]; intros i s; cbn [banner_loop units_sent].
  - unfold paced. cbn. by rewrite set_events_id.
  - destruct (send_raises env i).
    + unfold paced. cbn. by rewrite set_events_id.
    + run. unfold sleep. rewrite Hd. run. rewrite IH.
      destruct s. unfold set_events, add_event, paced. cbn.
      by rewrite <- !app_assoc.
Qed.

Lemma units_sent_all env chars :
  ∀ i, (∀ j, (i ≤ j < i + length chars)%nat → send_raises env j = false) →
       units_sent env i chars = chars.
Proof.
  induction chars as [|c chars IH]; intros i H; cbn [units_sent]; [done|].
  rewrite H by (cbn; lia). f_equal. apply IH. intros j Hj. apply H. cbn. lia.
Qed.

Lemma units_sent_prefix env chars : ∀ i, units_sent env i chars `prefix_of` chars.
Proof.
  induction chars as [|c chars IH]; intros i; cbn [units_sent].
  - done.
  - destruct (send_raises env i); [apply prefix_nil|]. by apply prefix_cons.
Qed.

Lemma units_sent_first_error env chars :
  ∀ i k,
    send_raises env (i + k) = true →
    (∀ j, (j < k)%nat → send_raises env (i + j) = false) →
    (k < length chars)%nat →
    units_sent env i chars = take k chars.
Proof.
  induction chars as [|c chars IH]; intros i k Hk Hbefore Hlen; cbn in Hlen; [lia|].
  cbn [units_sent]. destruct k as [|k].
  - rewrite Nat.add_0_r in Hk. by rewrite Hk.
  - pose proof (Hbefore 0%nat ltac:(lia)) as H0. rewrite Nat.add_0_r in H0.
    rewrite H0. cbn [take]. f_equal.
    apply IH; [|intros j Hj|lia].
    + by replace (S i + k)%nat with (i + S k)%nat by lia.
    + replace (S i + j)%nat with (i + S j)%nat by lia. apply Hbefore. lia.
Qed.

Lemma monitor_loop_total ip script :
  ∀ buffer s, ∃ b, (monitor_loop ip script buffer s).1 = Ok b.
Proof.
  induction script as [|r script IH]; intros buffer s; cbn [monitor_loop].
  - by exists buffer.
  - run. destruct (running s); cbn; [|by exists buffer].
    destruct r as [[|b data]| |]; cbn; eauto.
Qed.

Lemma monitor_loop_extends ip script :
  ∀ buffer s, extends s (monitor_loop ip script buffer s).2.
Proof.
  induction script as [|r script IH]; intros buffer s; cbn [monitor_loop].
  - apply extends_refl.
  - run. destruct (running s); cbn; [|apply extends_refl].
    destruct r as [[|b data]| |]; cbn; try apply extends_refl; [|apply IH].
    eapply extends_trans; [apply extends_add_event | apply IH].
Qed.

Lemma monitor_connection_spec env ip s :
  (monitor_connection env ip s).1 = Ok tt ∧ extends s (monitor_connection env ip s).2.
Proof.
  unfold monitor_connection. run.
  destruct (monitor_loop_total ip (recv_script env) [] s) as [b Hb].
  pose proof (monitor_loop_extends ip (recv_script env) [] s) as He.
  destruct (monitor_loop _ _ _ _) as [r s']. cbn in *. subst r. by cbn.
Qed.

Lemma ip_delays_getitem_eq ip s :
  ip_delays_getitem ip s
  = (Ok (stored_delay s ip), set_ip_delays (insert ip (stored_delay s ip)) s).
Proof.
  unfold ip_delays_getitem, stored_delay.
  destruct (ip_delays s !! ip) as [d|] eqn:E; cbn; [|done].
  f_equal. destruct s. unfold set_ip_delays. cbn in *. f_equal.
  symmetry. by apply insert_id.
Qed.

Lemma setup_ok_true c env :
  setup_ok c env = true ↔
  (0 ≤ connection_timeout c ≤ 9223372036)
  ∧ (tcp_keepalive c = false ∨ setsockopt_raises env = None).
Proof.
  unfold setup_ok. rewrite !andb_true_iff, orb_true_iff, negb_true_iff.
  rewrite bool_decide_eq_true, !Z.leb_le. tauto.
Qed.

(** A successful set-up: the first part of the [try] block counts and logs
    the connection, and then sleeps the adaptive delay when it is positive. *)
Lemma handle_client_enter_setup env client_address s :
  setup_ok (cfg s) env = true →
  handle_client_enter env client_address s
  = let d := Py.min (stored_delay s client_address.1) (max_delay (cfg s)) in
    when (Py.Qltb 0 d) (sleep env d) (connected client_address s).
Proof.
  intros [[Ht0 Ht1] Hk]%setup_ok_true.
  unfold handle_client_enter, settimeout, current_delay, ip_connection_counts_incr.
  run.
  assert ((connection_timeout (cfg s) <? -9223372036) = false) as -> by lia.
  assert ((9223372036 <? connection_timeout (cfg s)) = false) as -> by lia.
  assert ((connection_timeout (cfg s) <? 0) = false) as -> by lia.
  cbn [orb]. run.
  assert (Hopt : when (tcp_keepalive (cfg s)) (raise_if (setsockopt_raises env)) s
                 = (Ok (), s)).
  { destruct Hk as [-> | ->]; [done | by destruct (tcp_keepalive _)]. }
  unfold when, raise_if, raise, mret, ST_ret in Hopt. rewrite Hopt.
  rewrite ip_delays_getitem_eq. cbn.
  unfold connected, add_event, set_events. cbn. reflexivity.
Qed.

Lemma handle_client_enter_connected env client_address s :
  setup_ok (cfg s) env = true →
  extends (connected client_address s) (handle_client_enter env client_address s).2.
Proof.
  intros Hs. rewrite (handle_client_enter_setup _ _ _ Hs). cbn zeta. unfold when.
  destruct (Py.Qltb 0 _); [apply sleep_extends | apply extends_refl].
Qed.

(** A successful set-up followed by a delay that [time.sleep] accepts: the
    first part of the [try] block returns and leaves the state [entered]. *)
Lemma handle_client_enter_ok env client_address s :
  setup_ok (cfg s) env = true →
  sleep_raises env (Py.min (stored_delay s client_address.1) (max_delay (cfg s))) = None →
  handle_client_enter env client_address s = (Ok tt, entered client_address s).
Proof.
  intros Hs Hsl. rewrite (handle_client_enter_setup _ _ _ Hs). cbn zeta.
  unfold when, entered, connected. set (d := Py.min _ _) in *.
  destruct (Py.Qltb 0 d) eqn:Hd; cbn.
  - unfold sleep. rewrite sleep_error_accepted; [|apply Qltb_lt in Hd; lra|done].
    run. unfold add_event, set_events. cbn. by rewrite <- app_assoc.
  - done.
Qed.

(** A failed set-up: the exception leaves the first part of the [try] block
    before any state was written. *)
Lemma handle_client_enter_fail env client_address s :
  setup_ok (cfg s) env = false →
  ∃ e, handle_client_enter env client_address s = (Raise e, s).
Proof.
  intros H. unfold setup_ok in H. unfold handle_client_enter, settimeout. run.
  destruct ((connection_timeout (cfg s) <? -9223372036)
            || (9223372036 <? connection_timeout (cfg s))) eqn:Hov;
    [by exists OverflowError|].
  destruct (connection_timeout (cfg s) <? 0) eqn:Hneg; [by exists ValueError|]. run.
  assert ((0 <=? connection_timeout (cfg s)) && (connection_timeout (cfg s) <=? 9223372036)
          = true) as Hr by lia.
  rewrite Hr in H. cbn in H.
  destruct (tcp_keepalive (cfg s)); [|done].
  destruct (setsockopt_raises env) as [e|]; [by exists e | done].
Qed.

Lemma send_ssh_banner_extends env s : extends s (send_ssh_banner env s).2.
Proof. unfold send_ssh_banner. run. apply banner_loop_extends. Qed.

Lemma handle_client_except_spec ip e s :
  (handle_client_except ip e s).1 = Ok tt ∧ extends s (handle_client_except ip e s).2.
Proof. destruct e; cbn; run; (split; [done | apply extends_add_event]). Qed.

(** The [try] block with its [except] clauses always returns normally, having
    appended events to the state left by the set-up. *)
Lemma handle_client_body_spec env client_address s :
  ∃ sb, handle_client_body env client_address s = (Ok tt, sb)
        ∧ extends (if setup_ok (cfg s) env then connected client_address s else s) sb.
Proof.
  unfold handle_client_body, handle_client_try. run.
  destruct (setup_ok (cfg s) env) eqn:Hs.
  - pose proof (handle_client_enter_connected env client_address s Hs) as H0.
    destruct (handle_client_enter env client_address s) as [[[]|e0] s0]; cbn in H0.
    + pose proof (send_ssh_banner_extends env s0) as Hb.
      destruct (send_ssh_banner env s0) as [[[]|e] s1]; cbn in Hb.
      * destruct (monitor_connection_spec env client_address.1 s1) as [Hr Hm].
        destruct (monitor_connection env _ s1) as [r s2]. cbn in *. subst r.
        eexists. split; [done|]. eapply extends_trans; [done|]. by eapply extends_trans.
      * destruct (handle_client_except_spec client_address.1 e s1) as [Hr He].
        destruct (handle_client_except _ e s1) as [r s2]. cbn in *. subst r.
        eexists. split; [done|]. eapply extends_trans; [done|]. by eapply extends_trans.
    + destruct (handle_client_except_spec client_address.1 e0 s0) as [Hr He].
      destruct (handle_client_except _ e0 s0) as [r s2]. cbn in *. subst r.
      eexists. split; [done|]. by eapply extends_trans.
  - destruct (handle_client_enter_fail env client_address s Hs) as [e ->].
    destruct (handle_client_except_spec client_address.1 e s) as [Hr He].
    destruct (handle_client_except _ e s) as [r s2]. cbn in *. subst r.
    eexists. split; [done|]. done.
Qed.

Lemma handle_client_finally_eq env client_ip s :
  handle_client_finally env client_ip s = (Ok tt, torn_down client_ip s).
Proof.
  unfold handle_client_finally. run. rewrite ip_delays_getitem_eq. cbn.
  unfold sock_close. run.
  destruct (close_raises env); cbn; unfold torn_down, add_event, set_events; cbn;
    rewrite insert_insert_eq, <- app_assoc; reflexivity.
Qed.

(** Every run of [handle_client] returns normally: the body leaves a state
    [sb] and the [finally] block is applied to it. *)
Lemma handle_client_spec env client_address s :
  ∃ sb, handle_client_body env client_address s = (Ok tt, sb)
        ∧ handle_client env client_address s = (Ok tt, torn_down client_address.1 sb)
        ∧ extends (if setup_ok (cfg s) env then connected client_address s else s) sb.
Proof.
  destruct (handle_client_body_spec env client_address s) as (sb & Hb & He).
  exists sb. split; [done|]. split; [|done].
  unfold handle_client, try_finally. rewrite Hb, handle_client_finally_eq. done.
Qed.

Lemma stored_delay_extends s s' ip : extends s s' → stored_delay s' ip = stored_delay s ip.
Proof. intros (Hc & _ & _ & _ & _ & Hd & _). unfold stored_delay. by rewrite Hc, Hd. Qed.

Lemma stored_delay_connected client_address s ip :
  stored_delay (connected client_address s) ip = stored_delay s ip.
Proof.
  unfold stored_delay at 1. cbn.
  destruct (decide (client_address.1 = ip)) as [->|Hne].
  - by rewrite lookup_insert_eq.
  - by rewrite lookup_insert_ne.
Qed.

(** The body of a handler does not change what [self.ip_delays[ip]] evaluates
    to, for any address. *)
Lemma stored_delay_body env client_address s sb ip :
  handle_client_body env client_address s = (Ok tt, sb) →
  cfg sb = cfg s ∧ stored_delay sb ip = stored_delay s ip.
Proof.
  intros Hb. destruct (handle_client_body_spec env client_address s) as (sb' & Hb' & He).
  rewrite Hb in Hb'. injection Hb' as <-.
  split.
  - destruct He as [-> _]. by destruct (setup_ok _ _).
  - rewrite (stored_delay_extends _ _ ip He).
    destruct (setup_ok _ _); [apply stored_delay_connected | done].
Qed.

Lemma stored_delay_torn_down client_ip s ip :
  stored_delay (torn_down client_ip s) ip
  = if decide (client_ip = ip)
    then Py.min (stored_delay s ip + delay_increment (cfg s))%Q (max_delay (cfg s))
    else stored_delay s ip.
Proof.
  unfold stored_delay at 1. cbn. destruct (decide (client_ip = ip)) as [->|Hne].
  - by rewrite lookup_insert_eq.
  - by rewrite lookup_insert_ne.
Qed.

(** The effect of one complete handler on the configuration and on the
    delay kept for each address. *)
Lemma handle_client_stored_delay env client_address s ip :
  let s' := (handle_client env client_address s).2 in
  cfg s' = cfg s
  ∧ stored_delay s' ip
    = if decide (client_address.1 = ip)
      then Py.min (stored_delay s ip + delay_increment (cfg s))%Q (max_delay (cfg s))
      else stored_delay s ip.
Proof.
  destruct (handle_client_spec env client_address s) as (sb & Hb & -> & He). cbn.
  destruct (stored_delay_body _ _ _ _ ip Hb) as [Hc Hd].
  split; [done|]. rewrite stored_delay_torn_down, Hc, Hd. done.
Qed.

(** ** The adaptive delay *)

(** What a handler whose set-up succeeds appends first: the record of the
    connection with its attempt number and its delay. *)
Lemma handle_client_first_events env ip peer_port s :
  setup_ok (cfg s) env = true →
  let delay := Py.min (stored_delay s ip) (max_delay (cfg s)) in
  ∃ tail,
    events (handle_client env (ip, peer_port) s).2
    = events s
      ++ Log INFO (LogConnection ip peer_port
                     (default 0 (ip_connection_counts s !! ip) + 1) delay)
         :: tail.
Proof.
  intros Hok delay.
  destruct (handle_client_spec env (ip, peer_port) s) as (sb & Hb & -> & He).
  rewrite Hok in He. destruct He as (_ & _ & _ & _ & _ & _ & _ & evs & Hev).
  cbn [snd fst torn_down events] in *. rewrite Hev. unfold connected.
  cbn [events fst snd]. fold delay.
  exists (evs ++ [SockClose; Log INFO (LogClosed ip)]).
  rewrite <- !app_assoc. reflexivity.
Qed.

(** ** The adaptive delay *)

Section delays_facts.
Context {num : Type} (add : num → num → num) (ltb : num → num → bool).

(** What [self.ip_delays[ip]] evaluates to after one handler. *)
Lemma delay_of_session_lookup (o : delay_options num) session m ip :
  default (opt_initial_delay o) ((delay_of_session add ltb o session m).2 !! ip)
  = if decide (session.2 = ip)
    then min_of ltb (add (default (opt_initial_delay o) (m !! ip)) (opt_delay_increment o))
           (opt_max_delay o)
    else default (opt_initial_delay o) (m !! ip).
Proof.
  destruct session as [ok client_ip].
  unfold delay_of_session, delay_at_connect, delay_at_close, delays_getitem. cbn [fst snd].
  destruct (decide (client_ip = ip)) as [->|Hne].
  - destruct ok; destruct (m !! ip) as [d|] eqn:E; cbn [snd];
      rewrite ?E, ?lookup_insert_eq; cbn [snd]; by rewrite ?lookup_insert_eq.
  - destruct ok; destruct (m !! client_ip) as [d|] eqn:E; cbn [snd];
      rewrite ?E, ?lookup_insert_eq; cbn [snd]; by rewrite !lookup_insert_ne.
Qed.

(** The delay a handler computes when its set-up succeeds. *)
Lemma delay_of_session_observed (o : delay_options num) m ip :
  (delay_of_session add ltb o (true, ip) m).1
  = Some (min_of ltb (default (opt_initial_delay o) (m !! ip)) (opt_max_delay o)).
Proof.
  unfold delay_of_session, delay_at_connect, delays_getitem. cbn [fst snd].
  by destruct (m !! ip).
Qed.

(** After handlers that ran one after the other, the value kept for an
    address is the accumulated delay of the number of its cycles. *)
Lemma delays_after_lookup (o : delay_options num) ip sessions :
  ∀ m k,
    default (opt_initial_delay o) (m !! ip) = accumulated_delay add ltb o k →
    default (opt_initial_delay o) (delays_after add ltb o sessions m !! ip)
    = accumulated_delay add ltb o (k + cycles ip sessions).
Proof.
  induction sessions as [|session sessions IH]; intros m k Hk.
  - cbn. by rewrite Nat.add_0_r.
  - unfold delays_after, cycles in *. cbn [fold_left]. rewrite filter_cons.
    pose proof (delay_of_session_lookup o session m ip) as Hl.
    destruct (decide (session.2 = ip)) as [Heq|Hne].
    + cbn [length]. rewrite Nat.add_succ_r. apply (IH _ (S k)).
      rewrite Hl, Hk. reflexivity.
    + apply IH. by rewrite Hl.
Qed.

Lemma delay_after_cycles (o : delay_options num) sessions ip :
  (delay_of_session add ltb o (true, ip) (delays_after add ltb o sessions ∅)).1
  = Some (min_of ltb (accumulated_delay add ltb o (cycles ip sessions)) (opt_max_delay o)).
Proof.
  rewrite delay_of_session_observed.
  rewrite (delays_after_lookup o ip sessions ∅ 0); [done|].
  by rewrite lookup_empty.
Qed.

End delays_facts.

(** The handler of the model logs the delay that [delay_of_session] computes
    on exact rationals. *)
Lemma handle_client_logs_delay env ip peer_port s :
  setup_ok (cfg s) env = true →
  ∃ attempt delay tail,
    events (handle_client env (ip, peer_port) s).2
    = events s ++ Log INFO (LogConnection ip peer_port attempt delay) :: tail
    ∧ (delay_of_session Qplus Py.Qltb (delay_options_of (cfg s)) (true, ip) (ip_delays s)).1
      = Some delay.
Proof.
  intros Hok. destruct (handle_client_first_events env ip peer_port s Hok) as [tail Hev].
  eexists _, _, tail. split; [exact Hev|].
  rewrite delay_of_session_observed. reflexivity.
Qed.

(** C1 (as amended).  In binary64, as the code computes: after any sequence
    of handlers that ran one after the other, [n] of them for connections from
    [ip], the delay of the next connection from [ip] (when its socket set-up
    succeeds) is [min(d_n, max_delay)], where [d_0] is [initial_delay] and
    [d_(k+1)] is [min(d_k + delay_increment, max_delay)] with the sum rounded
    as the addition of floats rounds it.  With [initial_delay=1.0],
    [delay_increment=2.0] and [max_delay=5.0], four connections from one
    address are delayed by [1.0], [3.0], [5.0] and [5.0]. *)
Theorem delay_after_sequential_connections :
  (∀ (o : delay_options float) (sessions : list (bool * string)) (ip : string),
     (delay_of_session PrimFloat.add PrimFloat.ltb o (true, ip)
        (delays_after PrimFloat.add PrimFloat.ltb o sessions ∅)).1
     = Some (min_of PrimFloat.ltb
               (accumulated_delay PrimFloat.add PrimFloat.ltb o (cycles ip sessions))
               (opt_max_delay o)))
  ∧ observed_delays PrimFloat.add PrimFloat.ltb
      {| opt_initial_delay := 1.0; opt_delay_increment := 2.0; opt_max_delay := 5.0 |}%float
      (repeat (true, "10.0.0.5"%string) 4) ∅
    = [1.0; 3.0; 5.0; 5.0]%float.
Proof.
  split.
  - intros o sessions ip. apply delay_after_cycles.
  - vm_compute. reflexivity.
Qed.

(** C1, as stated, fails on the rounding of the sums.  With
    [initial_delay=1.0], [delay_increment=0.1] and [max_delay=60.0], the third
    connection of an address is delayed by [(1.0 + 0.1) + 0.1], which is
    1.2000000000000002 ([0x1.3333333333334p+0]), while
    [min(1.0 + 2 * 0.1, 60.0)] is 1.2 ([0x1.3333333333333p+0]). *)
Lemma delay_after_sequential_connections_counterexample :
  let o := {| opt_initial_delay := 1.0;
              opt_delay_increment := 0x1.999999999999ap-4;
              opt_max_delay := 60.0 |}%float in
  let ip := "10.0.0.5"%string in
  let observed :=
    (delay_of_session PrimFloat.add PrimFloat.ltb o (true, ip)
       (delays_after PrimFloat.add PrimFloat.ltb o [(true, ip); (true, ip)] ∅)).1 in
  observed = Some 0x1.3333333333334p+0%float
  ∧ closed_form_delay o 2.0%float = 0x1.3333333333333p+0%float
  ∧ observed ≠ Some (closed_form_delay o 2.0%float).
Proof.
  intros o ip observed.
  assert (Ho : observed = Some 0x1.3333333333334p+0%float) by (vm_compute; reflexivity).
  assert (Hc : closed_form_delay o 2.0%float = 0x1.3333333333333p+0%float)
    by (vm_compute; reflexivity).
  split; [done|]. split; [done|].
  rewrite Ho, Hc. intros H.
  pose proof (f_equal (λ x, match x with
                            | Some v => PrimFloat.ltb 0x1.3333333333333p+0%float v
                            | None => false
                            end) H) as H'.
  vm_compute in H'. discriminate.
Qed.

(** ** Teardown of a handler *)


(** A handler that runs from start to end makes two steps. *)
Lemma reachable_handle_client c now s env client_address :
  reachable c now s → reachable c now (handle_client env client_address s).2.
Proof.
  intros Hr. unfold reachable in *.
  destruct (handle_client_spec env client_address s) as (sb & Hb & -> & _).
  eapply rtc_r; [eapply rtc_r; [exact Hr|]|].
  - apply (step_body s env client_address).
  - rewrite Hb. cbn [snd].
    pose proof (step_finally sb env client_address.1) as Hs.
    by rewrite handle_client_finally_eq in Hs.
Qed.

(** C2.  A handler whose socket set-up fails skips the increment of
    [active_connections] but not the decrement of the [finally] block: on a
    fresh server one such connection leaves the counter at [-1]. *)
Theorem active_connections_negative_after_failed_setup :
  let s := (handle_client setup_fails ("10.0.0.5"%string, 40000)
              (serving default_config boot)).2 in
  reachable default_config boot s
  ∧ active_connections (server_stats s) = -1
  ∧ total_connections (server_stats s) = 0.
Proof.
  intros s. split; [|split; reflexivity].
  apply reachable_handle_client. apply rtc_refl.
Qed.

(** ** Invariants of the stored delays *)

(** The handler of the model and the bookkeeping of the delays agree: what a
    handler that runs from start to end leaves in [ip_delays] is what
    [delay_of_session] computes on exact rationals. *)
Lemma handle_client_delays env client_address s :
  ip_delays (handle_client env client_address s).2
  = (delay_of_session Qplus Py.Qltb (delay_options_of (cfg s))
       (setup_ok (cfg s) env, client_address.1) (ip_delays s)).2.
Proof.
  destruct (handle_client_spec env client_address s) as (sb & Hb & -> & He).
  destruct (stored_delay_body _ _ _ _ client_address.1 Hb) as [Hc Hd].
  destruct He as (_ & _ & _ & _ & _ & Hm & _).
  cbn [snd torn_down ip_delays]. rewrite Hc, Hd, Hm.
  unfold delay_of_session, delay_at_connect, delay_at_close, delays_getitem, stored_delay.
  cbn [fst snd delay_options_of opt_initial_delay opt_delay_increment opt_max_delay].
  destruct (setup_ok (cfg s) env); cbn [connected ip_delays fst snd];
    destruct (ip_delays s !! client_address.1) as [d|] eqn:E; cbn [default snd];
    rewrite ?E, ?lookup_insert_eq, ?insert_insert_eq; cbn [snd]; reflexivity.
Qed.

(** The accesses of a handler that runs from start to end are accesses of
    [access_step]. *)
Lemma delay_of_session_accesses c session m :
  rtc (access_step c) (store_of m)
    (store_of (delay_of_session Qplus Py.Qltb (delay_options_of c) session m).2).
Proof.
  destruct session as [ok ip].
  unfold delay_of_session, delay_at_connect, delay_at_close, delays_getitem.
  cbn [fst snd delay_options_of opt_initial_delay opt_delay_increment opt_max_delay].
  change (@min_of Q Py.Qltb) with Py.min.
  assert (Hclose : ∀ m d, m !! ip = Some d →
            rtc (access_step c) (store_of m)
              (store_of (<[ip := Py.min (d + delay_increment c)%Q (max_delay c)]> m))).
  { intros m0 d Hd.
    eapply rtc_l; [apply (lookup_hit_at_close c (store_of m0) ip d Hd)|].
    apply rtc_once.
    apply (store_at_close c {| stored := m0; in_factory := [];
                               read_at_close := [(ip, d)] |} ip d [] []).
    reflexivity. }
  assert (Hmiss : ∀ a m, m !! ip = None →
            access_step c (store_of m)
              {| stored := m; in_factory := [(ip, a)]; read_at_close := [] |}).
  { intros a m0 Hn. apply (lookup_miss c (store_of m0) ip a Hn). }
  destruct ok; destruct (m !! ip) as [d|] eqn:E; cbn [snd].
  - rewrite E. cbn [snd]. by apply Hclose.
  - rewrite lookup_insert_eq. cbn [snd].
    eapply rtc_l; [apply (Hmiss AtConnect m E)|].
    eapply rtc_l.
    { apply (insert_default_at_connect c
               {| stored := m; in_factory := [(ip, AtConnect)]; read_at_close := [] |}
               ip [] []). reflexivity. }
    apply Hclose. by rewrite lookup_insert_eq.
  - by apply Hclose.
  - eapply rtc_l; [apply (Hmiss AtClose m E)|].
    eapply rtc_l.
    { apply (insert_default_at_close c
               {| stored := m; in_factory := [(ip, AtClose)]; read_at_close := [] |}
               ip [] []). reflexivity. }
    apply rtc_once.
    exact (store_at_close c
             {| stored := <[ip := initial_delay c]> m; in_factory := [];
                read_at_close := [(ip, initial_delay c)] |} ip (initial_delay c) [] []
             eq_refl).
Qed.

Lemma handle_client_accesses env client_address s :
  rtc (access_step (cfg s)) (store_of (ip_delays s))
    (store_of (ip_delays (handle_client env client_address s).2)).
Proof. rewrite handle_client_delays. apply delay_of_session_accesses. Qed.

(** The dictionaries of handlers that run one after the other are among those
    of [access_step]. *)
Lemma run_sessions_accesses c now sessions :
  store_reachable c (store_of (ip_delays (run_sessions sessions (serving c now)))).
Proof.
  unfold store_reachable.
  assert (H : ∀ s, cfg s = c → rtc (access_step c) empty_store (store_of (ip_delays s)) →
              rtc (access_step c) empty_store
                (store_of (ip_delays (run_sessions sessions s)))).
  { induction sessions as [|[env addr] sessions IH]; intros s Hc Hr; [done|].
    unfold run_sessions in *. cbn [fold_left fst snd].
    apply IH.
    - by rewrite (proj1 (handle_client_stored_delay env addr s addr.1)).
    - etrans; [exact Hr|]. rewrite <- Hc. apply handle_client_accesses. }
  apply H; [done | apply rtc_refl].
Qed.

Lemma access_step_within_bounds c t t' :
  (0 <= initial_delay c <= max_delay c)%Q →
  (0 <= delay_increment c)%Q →
  access_step c t t' →
  store_within_bounds c t → store_within_bounds c t'.
Proof.
  intros Hinit Hinc Hstep [Hs Hr].
  destruct Hstep as [t ip a Hn | t ip f1 f2 Hf | t ip f1 f2 Hf | t ip d Hd | t ip d r1 r2 Hh];
    split; cbn [stored read_at_close]; intros ip' d'.
  - apply Hs.
  - apply Hr.
  - destruct (decide (ip = ip')) as [->|Hne].
    + rewrite lookup_insert_eq. by intros [= <-].
    + rewrite lookup_insert_ne by done. apply Hs.
  - apply Hr.
  - destruct (decide (ip = ip')) as [->|Hne].
    + rewrite lookup_insert_eq. by intros [= <-].
    + rewrite lookup_insert_ne by done. apply Hs.
  - rewrite elem_of_cons. intros [[= -> ->] | Hin]; [done | by apply (Hr ip')].
  - apply Hs.
  - rewrite elem_of_cons. intros [[= -> ->] | Hin]; [by apply (Hs ip) | by apply (Hr ip')].
  - assert (Hd : (0 <= d <= max_delay c)%Q).
    { apply (Hr ip). rewrite Hh. apply elem_of_app. right. apply elem_of_cons. by left. }
    destruct (decide (ip = ip')) as [->|Hne].
    + rewrite lookup_insert_eq. intros [= <-]. split; [|apply min_le_r].
      apply min_glb; lra.
    + rewrite lookup_insert_ne by done. apply Hs.
  - intros Hin. apply (Hr ip'). rewrite Hh.
    apply elem_of_app in Hin as [Hin | Hin]; apply elem_of_app; [by left | right].
    apply elem_of_cons. by right.
Qed.

Lemma store_reachable_within_bounds c t :
  (0 <= initial_delay c <= max_delay c)%Q →
  (0 <= delay_increment c)%Q →
  store_reachable c t → store_within_bounds c t.
Proof.
  intros Hinit Hinc Hr. unfold store_reachable in Hr. revert t Hr.
  apply (rtc_ind_r (store_within_bounds c)).
  - split; cbn.
    + intros ip d H. by rewrite lookup_empty in H.
    + intros ip d H. by apply elem_of_nil in H.
  - intros t1 t2 _ Hstep IH. by eapply access_step_within_bounds.
Qed.

(** C9 (as amended).  When [0 <= initial_delay <= max_delay] and
    [0 <= delay_increment], every delay stored in [ip_delays] lies in
    [[0, max_delay]], however the accesses of the handler threads to the
    dictionary are interleaved; and a [finally] block that runs without
    another thread in between, on any such dictionary, lowers the delay stored
    for no address. *)
Theorem stored_delay_within_bounds (c : config) (t : delay_store) :
  (0 <= initial_delay c <= max_delay c)%Q →
  (0 <= delay_increment c)%Q →
  store_reachable c t →
  (∀ ip d, stored t !! ip = Some d → (0 <= d <= max_delay c)%Q)
  ∧ (∀ env client_ip s ip d,
       cfg s = c →
       ip_delays s = stored t →
       ip_delays s !! ip = Some d →
       ∃ d', ip_delays (handle_client_finally env client_ip s).2 !! ip = Some d'
             ∧ (d <= d')%Q).
Proof.
  intros Hinit Hinc Hr.
  destruct (store_reachable_within_bounds c t Hinit Hinc Hr) as [Hs _].
  split; [done|].
  intros env client_ip s ip d Hc Hm Hd.
  rewrite handle_client_finally_eq. cbn [snd torn_down ip_delays].
  destruct (decide (client_ip = ip)) as [->|Hne].
  - rewrite lookup_insert_eq. eexists. split; [done|].
    unfold stored_delay. rewrite Hd, Hc. cbn [default]. unfold id.
    apply min_glb; [lra|]. apply (Hs ip). by rewrite <- Hm.
  - rewrite lookup_insert_ne by done. exists d. split; [done | lra].
Qed.

(** The default configuration is within the terms of the theorem, and so is
    the dictionary after two connections from one address: the delay stored,
    [5.0], is within [[0, 60.0]], and a further teardown raises it. *)
Lemma stored_delay_within_bounds_witness :
  let s := run_sessions (repeated 2) (serving default_config boot) in
  (∀ ip d, ip_delays s !! ip = Some d → (0 <= d <= max_delay default_config)%Q)
  ∧ (∀ env client_ip s' ip d,
       cfg s' = default_config →
       ip_delays s' = ip_delays s →
       ip_delays s' !! ip = Some d →
       ∃ d', ip_delays (handle_client_finally env client_ip s').2 !! ip = Some d'
             ∧ (d <= d')%Q).
Proof.
  apply (stored_delay_within_bounds default_config
           (store_of (ip_delays (run_sessions (repeated 2) (serving default_config boot))))).
  - split; vm_compute; discriminate.
  - vm_compute; discriminate.
  - apply run_sessions_accesses.
Defined.

(** C9, as stated, fails in two ways.  For arbitrary configured values: with
    [initial_delay=10.0] and [max_delay=5.0] the first look-up of an address
    stores [10.0], which exceeds the cap.  For teardowns of one address that
    overlap, with the default configuration: two threads read [1.0], one
    stores [3.0], a third thread reads [3.0] and stores [5.0], and then the
    second stores [3.0] over it. *)
Lemma stored_delay_within_bounds_counterexample :
  (∃ t d, store_reachable shrinking_config t
          ∧ stored t !! "10.0.0.5"%string = Some d
          ∧ ¬ (d <= max_delay shrinking_config)%Q)
  ∧ (∃ t t' d d', store_reachable default_config t
                  ∧ access_step default_config t t'
                  ∧ stored t !! "10.0.0.5"%string = Some d
                  ∧ stored t' !! "10.0.0.5"%string = Some d'
                  ∧ (d == 5)%Q ∧ (d' == 3)%Q).
Proof.
  set (ip := "10.0.0.5"%string).
  split.
  - eexists _, _. split; [|split].
    + eapply rtc_l; [apply (lookup_miss _ empty_store ip AtConnect); reflexivity|].
      apply rtc_once.
      apply (insert_default_at_connect shrinking_config
               {| stored := ∅; in_factory := [(ip, AtConnect)]; read_at_close := [] |}
               ip [] [] eq_refl).
    + cbn [stored]. apply lookup_insert_eq.
    + vm_compute. intros H. by apply H.
  - set (c := default_config).
    set (one := initial_delay c).
    set (three := Py.min (one + delay_increment c)%Q (max_delay c)).
    set (five := Py.min (three + delay_increment c)%Q (max_delay c)).
    exists {| stored := <[ip := five]> (<[ip := three]> (<[ip := one]> ∅));
              in_factory := []; read_at_close := [(ip, one)] |}.
    exists {| stored := <[ip := three]> (<[ip := five]> (<[ip := three]> (<[ip := one]> ∅)));
              in_factory := []; read_at_close := [] |}.
    exists five, three. split; [|split; [|split; [|split; [|split]]]].
    + eapply rtc_l; [apply (lookup_miss _ empty_store ip AtConnect); reflexivity|].
      eapply rtc_l.
      { apply (insert_default_at_connect c
                 {| stored := ∅; in_factory := [(ip, AtConnect)]; read_at_close := [] |}
                 ip [] []). reflexivity. }
      eapply rtc_l.
      { apply (lookup_hit_at_close c
                 {| stored := <[ip := one]> ∅; in_factory := []; read_at_close := [] |}
                 ip one). apply lookup_insert_eq. }
      eapply rtc_l.
      { apply (lookup_hit_at_close c
                 {| stored := <[ip := one]> ∅; in_factory := [];
                    read_at_close := [(ip, one)] |}
                 ip one). apply lookup_insert_eq. }
      eapply rtc_l.
      { apply (store_at_close c
                 {| stored := <[ip := one]> ∅; in_factory := [];
                    read_at_close := [(ip, one); (ip, one)] |}
                 ip one [] [(ip, one)]). reflexivity. }
      eapply rtc_l.
      { apply (lookup_hit_at_close c
                 {| stored := <[ip := three]> (<[ip := one]> ∅); in_factory := [];
                    read_at_close := [(ip, one)] |}
                 ip three). apply lookup_insert_eq. }
      apply rtc_once.
      exact (store_at_close c
               {| stored := <[ip := three]> (<[ip := one]> ∅); in_factory := [];
                  read_at_close := [(ip, three); (ip, one)] |}
               ip three [] [(ip, one)] eq_refl).
    + exact (store_at_close c
               {| stored := <[ip := five]> (<[ip := three]> (<[ip := one]> ∅));
                  in_factory := []; read_at_close := [(ip, one)] |}
               ip one [] [] eq_refl).
    + apply lookup_insert_eq.
    + apply lookup_insert_eq.
    + vm_compute. reflexivity.
    + vm_compute. reflexivity.
Qed.

(** ** The banner *)

Lemma list_ascii_of_string_append (a b : string) :
  list_ascii_of_string (a +:+ b) = list_ascii_of_string a ++ list_ascii_of_string b.
Proof. induction a as [|x a IH]; simpl; [done | by rewrite IH]. Qed.

Lemma banner_chars_crlf c :
  banner_chars c
  = list_ascii_of_string (ssh_banner c) ++ [ascii_of_nat 13; ascii_of_nat 10].
Proof. unfold banner_chars. by rewrite list_ascii_of_string_append. Qed.

(** C7 (as amended).  When [banner_delay] is a duration that [time.sleep]
    accepts (it is not negative, and the platform takes it), [send_ssh_banner]
    returns normally whatever the socket does; what it has transmitted is, in
    order and one character at a time, each followed by a pause of
    [banner_delay], the characters of the banner and of CR LF: all of them
    when no [send] fails, and those before the first [send] that fails
    otherwise; and the handler goes on to monitor the connection. *)
Theorem banner_transmission (env : conn_env) (client_ip : string) (s : server) :
  let c := cfg s in
  let full := list_ascii_of_string (ssh_banner c) ++ [ascii_of_nat 13; ascii_of_nat 10] in
  let sent := units_sent env 0 (banner_chars c) in
  (0 <= banner_delay c)%Q →
  sleep_raises env (banner_delay c) = None →
  (send_ssh_banner env s).1 = Ok tt
  ∧ events (send_ssh_banner env s).2 = events s ++ paced (banner_delay c) sent
  ∧ ((∀ i, send_raises env i = false) → sent = full)
  ∧ (∀ k, send_raises env k = true →
          (∀ j, (j < k)%nat → send_raises env j = false) →
          (k < length full)%nat →
          sent = take k full)
  ∧ (send_ssh_banner env;; monitor_connection env client_ip) s
    = monitor_connection env client_ip (send_ssh_banner env s).2.
Proof.
  intros c full sent Hd Hsl.
  assert (Heq : send_ssh_banner env s
                = (Ok tt, set_events (λ l, l ++ paced (banner_delay c) sent) s)).
  { unfold send_ssh_banner. run. apply banner_loop_spec.
    by apply sleep_error_accepted. }
  unfold sent, full. rewrite <- banner_chars_crlf.
  split; [by rewrite Heq|]. split; [by rewrite Heq|]. split; [|split].
  - intros Hno. apply units_sent_all. intros j _. apply Hno.
  - intros k Hk Hbefore Hlen. by apply units_sent_first_error.
  - run. by rewrite Heq.
Qed.

(** With the default configuration and a peer that accepts every [send], the
    whole banner goes out. *)
Lemma banner_transmission_witness :
  let s := serving default_config boot in
  let full := list_ascii_of_string (ssh_banner default_config)
              ++ [ascii_of_nat 13; ascii_of_nat 10] in
  let sent := units_sent peer_closes 0 (banner_chars default_config) in
  (send_ssh_banner peer_closes s).1 = Ok tt
  ∧ events (send_ssh_banner peer_closes s).2
    = events s ++ paced (banner_delay default_config) sent
  ∧ ((∀ i, send_raises peer_closes i = false) → sent = full)
  ∧ (∀ k, send_raises peer_closes k = true →
          (∀ j, (j < k)%nat → send_raises peer_closes j = false) →
          (k < length full)%nat →
          sent = take k full)
  ∧ (send_ssh_banner peer_closes;; monitor_connection peer_closes "10.0.0.5") s
    = monitor_connection peer_closes "10.0.0.5" (send_ssh_banner peer_closes s).2.
Proof.
  apply (banner_transmission peer_closes "10.0.0.5" (serving default_config boot)).
  - vm_compute. discriminate.
  - reflexivity.
Defined.

(** C7, as stated, fails for a [banner_delay] that [time.sleep] refuses.  With
    a negative one no [send] fails, yet after the first character [time.sleep]
    raises [ValueError], which leaves [send_ssh_banner]; one character has been
    transmitted.  The same happens, with the exception of the platform, for a
    [banner_delay] of 1e10 seconds. *)
Lemma banner_transmission_counterexample :
  let s := serving (with_banner_delay (-0.1)%Q default_config) boot in
  let s' := serving (with_banner_delay 10000000000%Q default_config) boot in
  (∀ i, send_raises peer_closes i = false)
  ∧ (send_ssh_banner peer_closes s).1 = Raise ValueError
  ∧ events (send_ssh_banner peer_closes s).2 = [Send "S"%char]
  ∧ ¬ ((send_ssh_banner peer_closes s).1 = Ok tt
       ∧ events (send_ssh_banner peer_closes s).2
         = events s ++ paced (banner_delay (cfg s)) (banner_chars (cfg s)))
  ∧ (send_ssh_banner peer_closes s').1 = Raise OverflowError
  ∧ events (send_ssh_banner peer_closes s').2 = [Send "S"%char].
Proof.
  intros s s'. split; [done|]. split; [reflexivity|]. split; [reflexivity|].
  split; [|split; reflexivity].
  intros [H _]. vm_compute in H. discriminate.
Qed.

(** ** The monitoring loop *)

Lemma slice_to_take {A : Type} (l : list A) (n : Z) :
  0 <= n <= Py.len l → Py.slice_to l n = take (Z.to_nat n) l.
Proof.
  unfold Py.slice_to, Py.slice_bound, Py.len. intros H.
  destruct (n <? 0) eqn:E; [lia|]. by rewrite Z.min_l by lia.
Qed.

Lemma slice_from_suffix {A : Type} (l : list A) (n : Z) :
  1 <= n <= Py.len l →
  Py.slice_from l (- n) = drop (length l - Z.to_nat n) l.
Proof.
  unfold Py.slice_from, Py.slice_bound, Py.len. intros H.
  destruct (- n <? 0) eqn:E; [|lia]. rewrite Z.max_l by lia.
  f_equal. lia.
Qed.

(** One iteration of the loop after a non-empty read: the record logged and
    the buffer carried to the next read are those of [monitor_step]. *)
Lemma monitor_loop_data ip data rest buffer s :
  running s = true →
  data ≠ [] →
  monitor_loop ip (RecvData data :: rest) buffer s
  = monitor_loop ip rest (monitor_step (max_input_length (cfg s)) buffer data).2
      (add_event
         (Log INFO (LogData ip (monitor_step (max_input_length (cfg s)) buffer data).1))
         s).
Proof.
  intros Hrun Hdata. cbn [monitor_loop]. run. rewrite Hrun. cbn.
  destruct data as [|b data]; [done|]. reflexivity.
Qed.

(** With a limit of zero the trimming [buffer[-0:]] is [buffer[0:]]: nothing
    is cut. *)
Lemma monitor_step_zero (buffer data : list byte) :
  (monitor_step 0 buffer data).2 = buffer ++ data.
Proof.
  unfold monitor_step. cbn [snd]. destruct (0 * 2 <? Py.len (buffer ++ data)); [|done].
  unfold Py.slice_from, Py.slice_bound. cbn [Z.opp Z.ltb Z.compare].
  rewrite Z.min_l by lia. reflexivity.
Qed.

Lemma monitor_loop_zero ip chunk :
  chunk ≠ [] →
  ∀ n buffer s,
    running s = true →
    max_input_length (cfg s) = 0 →
    (monitor_loop ip (repeat (RecvData chunk) n) buffer s).1
    = Ok (buffer ++ concat (repeat chunk n)).
Proof.
  intros Hchunk. induction n as [|n IH]; intros buffer s Hrun HM.
  - cbn. by rewrite app_nil_r.
  - cbn [repeat concat]. rewrite monitor_loop_data by done.
    rewrite HM, monitor_step_zero, IH by done. by rewrite app_assoc.
Qed.

(** C6.  The code does not reduce the buffer to its trailing
    [max_input_length] bytes when [max_input_length = 0]: after a read of one
    byte the buffer, one byte long, exceeds twice the limit, and
    [buffer[-0:]] keeps all of it where its last zero bytes are none; the
    next read is appended to it. *)
Theorem buffer_kept_whole_when_limit_is_zero :
  let s := serving (with_max_input_length 0 default_config) boot in
  let M := max_input_length (cfg s) in
  let b := ["a"%byte] in
  let kept := (monitor_step M [] b).2 in
  2 * M < Py.len b
  ∧ kept = b
  ∧ drop (length b - Z.to_nat M) b = []
  ∧ (monitor_loop "10.0.0.5" [RecvData b; RecvData ["b"%byte]] [] s).1
    = Ok ["a"%byte; "b"%byte].
Proof. repeat split. Qed.

(** C10.  The code does not bound the buffer when [max_input_length = 0]:
    nothing is ever cut, and after [n] reads of 100 bytes the buffer holds
    [100 * n] bytes, where the bound of the claim is [2 * 0]. *)
Theorem buffer_grows_without_bound_when_limit_is_zero (n : nat) :
  let s := serving (with_max_input_length 0 default_config) boot in
  let chunk := repeat "a"%byte 100 in
  ∃ b, (monitor_loop "10.0.0.5" (repeat (RecvData chunk) n) [] s).1 = Ok b
       ∧ Py.len b = 100 * Z.of_nat n
       ∧ 2 * max_input_length (cfg s) = 0.
Proof.
  intros s chunk. eexists. split; [|split; [|reflexivity]].
  - apply monitor_loop_zero; [discriminate | reflexivity | reflexivity].
  - unfold Py.len. rewrite app_nil_l, length_concat.
    induction n as [|n IH]; [reflexivity|].
    cbn [repeat map].
    change (list_sum (length chunk :: map length (repeat chunk n)))
      with (length chunk + list_sum (map length (repeat chunk n)))%nat.
    rewrite Nat2Z.inj_add, IH.
    unfold chunk. rewrite repeat_length. lia.
Qed.

(** X21.  In an iteration that has read [data], with [b] the buffer after the
    read: when [max_input_length < len(b) <= 2 * max_input_length] the bytes
    handed to the log are the first [max_input_length] bytes of [b] followed
    by the marker; and when [max_input_length] is at least one and
    [len(b) > 2 * max_input_length], the buffer kept for the next read is the
    last [max_input_length] bytes of [b]. *)
Theorem logged_prefix_and_kept_suffix
    (ip : string) (data : list byte) (rest : list recv_result)
    (buffer : list byte) (s : server) :
  running s = true →
  data ≠ [] →
  let M := max_input_length (cfg s) in
  let b := buffer ++ data in
  let logged := (monitor_step M buffer data).1 in
  let kept := (monitor_step M buffer data).2 in
  monitor_loop ip (RecvData data :: rest) buffer s
  = monitor_loop ip rest kept (add_event (Log INFO (LogData ip logged)) s)
  ∧ (M < Py.len b <= 2 * M → logged = take (Z.to_nat M) b ++ truncated_marker)
  ∧ (1 <= M → 2 * M < Py.len b →
     kept = drop (length b - Z.to_nat M) b ∧ Py.len kept = M).
Proof.
  intros Hrun Hdata M b logged kept.
  split; [by apply monitor_loop_data|].
  unfold logged, kept, monitor_step. fold b. cbn [fst snd]. split.
  - intros [Hlo Hhi]. apply Z.ltb_lt in Hlo as Hlo'. rewrite Hlo'.
    rewrite slice_to_take by lia. done.
  - intros HM Hlen. apply Z.ltb_lt in Hlen as Hlen'.
    replace (M * 2) with (2 * M) by lia. rewrite Hlen'.
    rewrite slice_from_suffix by lia. split; [done|].
    unfold Py.len in *. rewrite length_drop. lia.
Qed.

(** With the default limit of 1024 bytes, a read of 1000 bytes into a buffer
    of 2000 bytes leaves the last 1024 bytes of the 3000. *)
Lemma logged_prefix_and_kept_suffix_witness :
  let buffer := repeat "a"%byte 2000 in
  let data := repeat "b"%byte 1000 in
  let kept := (monitor_step 1024 buffer data).2 in
  kept = drop (length (buffer ++ data) - 1024) (buffer ++ data) ∧ Py.len kept = 1024.
Proof.
  intros buffer data kept.
  destruct (logged_prefix_and_kept_suffix "10.0.0.5" data [] buffer
              (serving default_config boot) eq_refl ltac:(discriminate))
    as (_ & _ & H).
  apply H; [vm_compute; discriminate | vm_compute; reflexivity].
Defined.

Lemma monitor_step_bounded (M : Z) (buffer data : list byte) :
  1 <= M → Py.len (monitor_step M buffer data).2 <= 2 * M.
Proof.
  intros HM. unfold monitor_step. cbn [snd].
  destruct (M * 2 <? Py.len (buffer ++ data)) eqn:E.
  - apply Z.ltb_lt in E. rewrite slice_from_suffix by lia.
    unfold Py.len in *. rewrite length_drop. lia.
  - apply Z.ltb_ge in E. lia.
Qed.

Lemma monitor_loop_bounded ip script :
  ∀ buffer s,
    1 <= max_input_length (cfg s) →
    Py.len buffer <= 2 * max_input_length (cfg s) →
    ∃ b, (monitor_loop ip script buffer s).1 = Ok b
         ∧ Py.len b <= 2 * max_input_length (cfg s).
Proof.
  induction script as [|r script IH]; intros buffer s HM Hb.
  - by exists buffer.
  - destruct (running s) eqn:Hrun.
    + destruct r as [[|x data]| |].
      * exists buffer. cbn [monitor_loop]. run. by rewrite Hrun.
      * rewrite monitor_loop_data by done.
        apply (IH _ (add_event _ s)); [done|]. by apply monitor_step_bounded.
      * cbn [monitor_loop]. run. rewrite Hrun. cbn. by apply IH.
      * exists buffer. cbn [monitor_loop]. run. by rewrite Hrun.
    + exists buffer. cbn [monitor_loop]. run. by rewrite Hrun.
Qed.

(** X22.  When [max_input_length] is at least one, the buffer of
    [monitor_connection] holds at most [2 * max_input_length] bytes at the
    end of every iteration, that is, whenever the loop is left after any
    sequence of reads; a buffer of exactly [2 * max_input_length] bytes is
    kept as it is. *)
Theorem monitor_buffer_bounded (ip : string) (script : list recv_result) (s : server) :
  let M := max_input_length (cfg s) in
  1 <= M →
  (∃ b, (monitor_loop ip script [] s).1 = Ok b ∧ Py.len b <= 2 * M)
  ∧ (∀ buffer data,
       Py.len (buffer ++ data) = 2 * M →
       (monitor_step M buffer data).2 = buffer ++ data).
Proof.
  intros M HM. split.
  - apply monitor_loop_bounded; [done|]. unfold Py.len. cbn. lia.
  - intros buffer data Hlen. unfold monitor_step. cbn [snd].
    assert ((M * 2 <? Py.len (buffer ++ data)) = false) as ->; [|done].
    apply Z.ltb_ge. lia.
Qed.

(** With the default limit, 5000 bytes arriving in five reads of 1000 leave a
    buffer of at most 2048 bytes. *)
Lemma monitor_buffer_bounded_witness :
  let s := serving default_config boot in
  let script := repeat (RecvData (repeat "a"%byte 1000)) 5 in
  (∃ b, (monitor_loop "10.0.0.5" script [] s).1 = Ok b ∧ Py.len b <= 2 * 1024)
  ∧ (∀ buffer data,
       Py.len (buffer ++ data) = 2 * 1024 →
       (monitor_step 1024 buffer data).2 = buffer ++ data).
Proof.
  apply (monitor_buffer_bounded "10.0.0.5" (repeat (RecvData (repeat "a"%byte 1000)) 5)
           (serving default_config boot)).
  vm_compute. discriminate.
Defined.

(** ** Loading the configuration *)

(** A file that cannot be parsed leaves the defaults and prints the warning. *)
Lemma load_config_malformed name :
  load_config name Malformed default_config
  = (default_config,
     [PrintWarningCouldNotLoad name ConfigParserError; PrintUsingDefaultConfiguration]).
Proof. reflexivity. Qed.

(** C5.  A value that does not convert stops [load_config] after the options
    before it were assigned: the file that sets [port = 2223] and then an
    invalid [max_connections] prints the warning and "Using default
    configuration", and leaves [port] at 2223.  A file that cannot be opened
    prints no warning at all. *)
Theorem load_config_keeps_options_read_before_error :
  let loaded := load_config "honeypot.ini" (Parsed (Some half_valid_section)) default_config in
  loaded.2 = [PrintWarningCouldNotLoad "honeypot.ini" ValueError;
              PrintUsingDefaultConfiguration]
  ∧ loaded.1 = with_port 2223 default_config
  ∧ port loaded.1 ≠ port default_config
  ∧ load_config "honeypot.ini" Unreadable default_config
    = (default_config, [PrintConfigurationLoaded "honeypot.ini"]).
Proof.
  intros loaded. split; [reflexivity|]. split; [reflexivity|].
  split; [|reflexivity]. vm_compute. discriminate.
Qed.

(** ** Start-up and exit status *)

Lemma shutdown_returns env s : (shutdown env s).1 = Ok tt.
Proof.
  unfold shutdown. run. destruct (running s); cbn; [|done].
  destruct (server_socket s); cbn; destruct (http_server_thread s); cbn;
    try destruct (http_stats_stays_alive env); reflexivity.
Qed.

Lemma try_except_returns {S : Type} (m : ST S unit) (h : exn → ST S unit) (s : S) :
  (∀ e s', (h e s').1 = Ok tt) → (try_except m h s).1 = Ok tt.
Proof.
  intros Hh. unfold try_except. destruct (m s) as [[[]|e] s']; [done | apply Hh].
Qed.

(** No exception leaves [start]. *)
Lemma start_returns env s : (start env s).1 = Ok tt.
Proof.
  unfold start, try_finally.
  match goal with |- context [try_except ?m ?h s] =>
    pose proof (try_except_returns m h s (λ _ _, eq_refl)) as Hbody;
    destruct (try_except m h s) as [r s1] end.
  cbn in Hbody. subst r.
  pose proof (shutdown_returns env s1) as Hsh.
  destruct (shutdown env s1) as [r2 s2]. cbn in Hsh. by subst r2.
Qed.

(** C3.  When [bind] fails, [start] logs the failure and returns, the server
    never listens nor accepts, and [main] ends normally: the exit status is 0,
    not the 1 that [main] reserves for fatal errors.  A shutdown by signal
    ends with status 0 as well. *)
Theorem exit_status_after_bind_failure :
  let o := main no_args port_in_use in
  exit_status o = 0
  ∧ (events <$> final o)
    = Some [Log INFO LogInitialized; Log ERROR (LogFailedToStart OSError)]
  ∧ (running <$> final o) = Some false
  ∧ exit_status (main no_args terminated_by_signal) = 0.
Proof. repeat split. Qed.

(** ** The statistics endpoint *)

(** The counters after one complete handler. *)
Lemma handle_client_stats env client_address s :
  server_stats (handle_client env client_address s).2
  = if setup_ok (cfg s) env
    then {| total_connections := total_connections (server_stats s) + 1;
            active_connections := active_connections (server_stats s) + 1 - 1;
            connections_per_ip :=
              counter_incr client_address.1 (connections_per_ip (server_stats s));
            start_time := start_time (server_stats s) |}
    else {| total_connections := total_connections (server_stats s);
            active_connections := active_connections (server_stats s) - 1;
            connections_per_ip := connections_per_ip (server_stats s);
            start_time := start_time (server_stats s) |}.
Proof.
  destruct (handle_client_spec env client_address s) as (sb & _ & -> & He).
  destruct He as (_ & _ & _ & _ & Hst & _). cbn. rewrite Hst.
  by destruct (setup_ok _ _).
Qed.

(** C4 (as amended).  [GET /stats] answers 200 with [Content-type:
    application/json] and the serialisation of an object with the members
    [total_connections], [active_connections], [connections_per_ip] (an
    object that maps each address to its count) and [start_time] (the ISO
    format of the start time); any other path answers 404 with an HTML body.
    After one connection from each of two addresses to a fresh server,
    [total_connections] is 2 and [connections_per_ip] holds 1 for each. *)
Theorem stats_endpoint
    (st : stats) (client path : string) (c : config) (now : datetime)
    (env1 env2 : conn_env) (ip1 ip2 : string) (port1 port2 : Z) :
  path ≠ "/stats"%string →
  ip1 ≠ ip2 →
  setup_ok c env1 = true →
  setup_ok c env2 = true →
  (do_GET st client "/stats").1
  = {| status := 200;
       headers := [("Content-type"%string, "application/json"%string)];
       body :=
         dumps
           (JObject
              [ ("total_connections"%string, JInt (total_connections st));
                ("active_connections"%string, JInt (active_connections st));
                ("connections_per_ip"%string,
                  JObject (map (λ kv : string * Z, (kv.1, JInt kv.2))
                               (connections_per_ip st)));
                ("start_time"%string, JString (isoformat (start_time st))) ]) |}
  ∧ (do_GET st client path).1
    = {| status := 404;
         headers := [("Content-type"%string, "text/html"%string)];
         body := "<h1>404 Not Found</h1>" |}
  ∧ (let s := run_sessions [(env1, (ip1, port1)); (env2, (ip2, port2))] (serving c now) in
     json_get "total_connections" (stats_fields (server_stats s)) = Some (JInt 2)
     ∧ json_get "connections_per_ip" (stats_fields (server_stats s))
       = Some (JObject [(ip1, JInt 1); (ip2, JInt 1)])).
Proof.
  intros Hpath Hip Hok1 Hok2. split; [reflexivity|]. split.
  - unfold do_GET. apply String.eqb_neq in Hpath. by rewrite Hpath.
  - intros s. unfold s, run_sessions. cbn [fold_left fst snd].
    destruct (handle_client_stored_delay env1 (ip1, port1) (serving c now) ip1)
      as [Hc _]. cbn [snd] in Hc.
    rewrite handle_client_stats, Hc. cbn [cfg serving set_running new_server].
    rewrite Hok2, handle_client_stats. cbn [cfg serving set_running new_server].
    rewrite Hok1. cbn. apply String.eqb_neq in Hip. by rewrite Hip.
Qed.

(** The scenario of the specification, with the connections coming from
    [10.0.0.5] and [10.0.0.6] and a request for [/]. *)
Lemma stats_endpoint_witness :
  let s := run_sessions two_sources (serving default_config boot) in
  (do_GET (server_stats s) "192.0.2.1" "/").1
  = {| status := 404;
       headers := [("Content-type"%string, "text/html"%string)];
       body := "<h1>404 Not Found</h1>" |}
  ∧ json_get "total_connections" (stats_fields (server_stats s)) = Some (JInt 2)
  ∧ json_get "connections_per_ip" (stats_fields (server_stats s))
    = Some (JObject [("10.0.0.5"%string, JInt 1); ("10.0.0.6"%string, JInt 1)])
  ∧ json_get "start_time" (stats_fields (server_stats s))
    = Some (JString "2024-01-02T03:04:05").
Proof.
  intros s.
  destruct (stats_endpoint (server_stats s) "192.0.2.1" "/" default_config boot
              peer_closes peer_closes "10.0.0.5" "10.0.0.6" 40000 40001)
    as (_ & H404 & Htotal & Hper).
  - discriminate.
  - discriminate.
  - reflexivity.
  - reflexivity.
  - split; [exact H404|]. split; [exact Htotal|]. split; [exact Hper|].
    vm_compute. reflexivity.
Defined.

(** C4, as stated, fails on the name of the per-address member: the object
    served has no member [connections_per_source]; the counts are under
    [connections_per_ip]. *)
Lemma stats_endpoint_counterexample :
  let st := server_stats (run_sessions two_sources (serving default_config boot)) in
  body (do_GET st "192.0.2.1" "/stats").1 = dumps (JObject (stats_fields st))
  ∧ ¬ (∃ v, json_get "connections_per_source" (stats_fields st) = Some v).
Proof.
  intros st. split; [reflexivity|]. intros [v Hv]. vm_compute in Hv. discriminate.
Qed.

(** * Further properties of the code *)

(** ** The counters *)

Lemma counter_get_incr key ip c :
  counter_get ip (counter_incr key c)
  = counter_get ip c + (if decide (key = ip) then 1 else 0).
Proof.
  induction c as [|[k n] c IH]; cbn.
  - destruct (String.eqb_spec key ip); case_decide; try done; lia.
  - destruct (String.eqb_spec k key) as [->|Hk]; cbn.
    + destruct (String.eqb_spec key ip); case_decide; try done; lia.
    + destruct (String.eqb_spec k ip) as [->|Hk'].
      * case_decide; [congruence | lia].
      * apply IH.
Qed.

Lemma counter_total_incr key c : counter_total (counter_incr key c) = counter_total c + 1.
Proof.
  induction c as [|[k n] c IH]; cbn; [done|].
  destruct (String.eqb k key); cbn; [lia|]. unfold counter_total in IH. rewrite IH. lia.
Qed.

Lemma counter_keys_incr key c :
  counter_keys (counter_incr key c)
  = if decide (key ∈ counter_keys c) then counter_keys c else counter_keys c ++ [key].
Proof.
  unfold counter_keys. induction c as [|[k n] c IH]; cbn.
  - case_decide as H; [by apply elem_of_nil in H | done].
  - destruct (String.eqb_spec k key) as [->|Hk]; cbn.
    + rewrite decide_True by (apply elem_of_cons; by left). done.
    + rewrite IH. case_decide as H1; case_decide as H2; try done.
      * exfalso. apply H2. apply elem_of_cons. by right.
      * exfalso. apply elem_of_cons in H2 as [?|?]; congruence.
Qed.

(** What a step does to the counters: nothing, or one connection from some
    address is counted. *)
Lemma step_counters s s' :
  step s s' →
  (total_connections (server_stats s') = total_connections (server_stats s)
   ∧ connections_per_ip (server_stats s') = connections_per_ip (server_stats s)
   ∧ ip_connection_counts s' = ip_connection_counts s)
  ∨ ∃ ip,
      total_connections (server_stats s') = total_connections (server_stats s) + 1
      ∧ connections_per_ip (server_stats s')
        = counter_incr ip (connections_per_ip (server_stats s))
      ∧ ip_connection_counts s' = <[ip := connection_count s ip + 1]> (ip_connection_counts s).
Proof.
  intros [s0 env addr | s0 env client_ip | s0].
  - destruct (handle_client_body_spec env addr s0) as (sb & -> & He).
    cbn [snd]. destruct He as (_ & _ & _ & _ & -> & _ & -> & _).
    destruct (setup_ok _ _); [right; by exists addr.1 | by left].
  - rewrite handle_client_finally_eq. by left.
  - by left.
Qed.

(** The counters agree with one another in every reachable state. *)
Lemma reachable_counters c now s :
  reachable c now s →
  total_connections (server_stats s) = counter_total (connections_per_ip (server_stats s))
  ∧ NoDup (counter_keys (connections_per_ip (server_stats s)))
  ∧ ∀ ip, counter_get ip (connections_per_ip (server_stats s)) = connection_count s ip.
Proof.
  unfold reachable. revert s.
  apply (rtc_ind_r (λ s,
    total_connections (server_stats s) = counter_total (connections_per_ip (server_stats s))
    ∧ NoDup (counter_keys (connections_per_ip (server_stats s)))
    ∧ ∀ ip, counter_get ip (connections_per_ip (server_stats s)) = connection_count s ip)).
  - split; [done|]. split; [constructor|]. intros ip. unfold connection_count. cbn.
    by rewrite lookup_empty.
  - intros s1 s2 _ Hstep (Ht & Hn & Hc).
    destruct (step_counters _ _ Hstep) as [(Et & Ep & Ec)|(ip0 & Et & Ep & Ec)].
    + unfold connection_count. rewrite Et, Ep, Ec. done.
    + rewrite Et, Ep. split; [rewrite counter_total_incr; lia|]. split.
      * rewrite counter_keys_incr. case_decide as Hin; [done|].
        apply NoDup_app. split; [done|]. split; [|apply NoDup_singleton].
        intros x Hx Hx'. apply list_elem_of_singleton in Hx'. by subst.
      * intros ip. rewrite counter_get_incr, Hc. unfold connection_count. rewrite Ec.
        destruct (decide (ip0 = ip)) as [->|Hne].
        -- by rewrite lookup_insert_eq.
        -- rewrite lookup_insert_ne by done. lia.
Qed.

Lemma handle_client_connection_count env client_address s ip :
  connection_count (handle_client env client_address s).2 ip
  = connection_count s ip
    + (if setup_ok (cfg s) env then if decide (client_address.1 = ip) then 1 else 0 else 0).
Proof.
  destruct (handle_client_spec env client_address s) as (sb & _ & -> & He).
  destruct He as (_ & _ & _ & _ & _ & _ & Hc & _).
  unfold connection_count. cbn. rewrite Hc.
  destruct (setup_ok _ _); [|lia]. cbn.
  destruct (decide (client_address.1 = ip)) as [->|Hne].
  - by rewrite lookup_insert_eq.
  - rewrite lookup_insert_ne by done. lia.
Qed.

Lemma run_sessions_counters c sessions :
  ∀ s,
    cfg s = c →
    let s' := run_sessions sessions s in
    cfg s' = c
    ∧ total_connections (server_stats s')
      = total_connections (server_stats s) + Z.of_nat (length (succeeded c sessions))
    ∧ active_connections (server_stats s')
      = active_connections (server_stats s) - Z.of_nat (length (failed c sessions))
    ∧ ∀ ip,
        counter_get ip (connections_per_ip (server_stats s'))
        = counter_get ip (connections_per_ip (server_stats s))
          + Z.of_nat (sessions_from ip (succeeded c sessions))
        ∧ connection_count s' ip
          = connection_count s ip + Z.of_nat (sessions_from ip (succeeded c sessions)).
Proof.
  induction sessions as [|[env addr] sessions IH]; intros s Hc.
  - cbn. split; [done|]. split; [lia|]. split; [lia|]. intros ip. split; lia.
  - unfold run_sessions. cbn [fold_left fst snd].
    destruct (handle_client_stored_delay env addr s addr.1) as [Hc' _]. cbn [snd] in Hc'.
    destruct (IH (handle_client env addr s).2) as (Hcfg & Ht & Ha & Hi); [congruence|].
    unfold run_sessions in Hcfg, Ht, Ha, Hi. cbn zeta in *.
    split; [done|].
    rewrite Ht, Ha, handle_client_stats, Hc.
    unfold succeeded, failed, sessions_from in *. rewrite !filter_cons. cbn [fst snd].
    destruct (setup_ok c env) eqn:Hok.
    + rewrite decide_True, decide_False by done. cbn [length total_connections
        active_connections connections_per_ip].
      split; [lia|]. split; [lia|]. intros ip. destruct (Hi ip) as [-> ->].
      rewrite handle_client_stats, handle_client_connection_count, Hc, Hok.
      cbn [connections_per_ip]. rewrite counter_get_incr, filter_cons. cbn [fst snd].
      destruct (decide (addr.1 = ip)); cbn [length]; split; lia.
    + rewrite decide_False, decide_True by done. cbn [length total_connections
        active_connections connections_per_ip].
      split; [lia|]. split; [lia|]. intros ip. destruct (Hi ip) as [-> ->].
      rewrite handle_client_stats, handle_client_connection_count, Hc, Hok.
      cbn [connections_per_ip]. split; lia.
Qed.

(** X1.  After handlers that ran one after the other on a fresh server,
    [total_connections] is the number of connections whose socket set-up
    succeeded, [active_connections] is minus the number of those whose set-up
    failed, and the count kept for each address is the number of its
    connections whose set-up succeeded. *)
Theorem counters_after_sequential_sessions
    (c : config) (now : datetime) (sessions : list (conn_env * (string * Z))) :
  let st := server_stats (run_sessions sessions (serving c now)) in
  total_connections st = Z.of_nat (length (succeeded c sessions))
  ∧ active_connections st = - Z.of_nat (length (failed c sessions))
  ∧ ∀ ip, counter_get ip (connections_per_ip st)
          = Z.of_nat (sessions_from ip (succeeded c sessions)).
Proof.
  destruct (run_sessions_counters c sessions (serving c now) eq_refl)
    as (_ & Ht & Ha & Hi).
  cbn zeta in *. split; [rewrite Ht; cbn; lia|]. split; [rewrite Ha; cbn; lia|].
  intros ip. destruct (Hi ip) as [-> _]. cbn. lia.
Qed.

Lemma reachable_run_sessions c now sessions :
  ∀ s, reachable c now s → reachable c now (run_sessions sessions s).
Proof.
  induction sessions as [|[env addr] sessions IH]; intros s Hr; [done|].
  unfold run_sessions. cbn [fold_left]. apply IH. by apply reachable_handle_client.
Qed.

(** X2.  After handlers that ran one after the other on a fresh server, no
    two of them overlapping, [total_connections] is the sum of the
    per-address counts, no address occurs twice among the keys of
    [connections_per_ip], and the count of every address there equals the
    one in [ip_connection_counts]. *)
Theorem statistics_consistent
    (c : config) (now : datetime) (sessions : list (conn_env * (string * Z))) :
  let s := run_sessions sessions (serving c now) in
  total_connections (server_stats s) = counter_total (connections_per_ip (server_stats s))
  ∧ NoDup (counter_keys (connections_per_ip (server_stats s)))
  ∧ ∀ ip, counter_get ip (connections_per_ip (server_stats s)) = connection_count s ip.
Proof.
  intros s. apply (reachable_counters c now), reachable_run_sessions, rtc_refl.
Qed.

(** X4.  A handler for a connection from one address leaves the delay, the
    count and the attempt counter of every other address as they were. *)
Theorem other_addresses_untouched
    (env : conn_env) (client_address : string * Z) (s : server) (ip : string) :
  client_address.1 ≠ ip →
  let s' := (handle_client env client_address s).2 in
  ip_delays s' !! ip = ip_delays s !! ip
  ∧ counter_get ip (connections_per_ip (server_stats s'))
    = counter_get ip (connections_per_ip (server_stats s))
  ∧ connection_count s' ip = connection_count s ip.
Proof.
  intros Hne s'. unfold s'. split; [|split].
  - destruct (handle_client_spec env client_address s) as (sb & _ & -> & He).
    destruct He as (_ & _ & _ & _ & _ & Hd & _). cbn.
    rewrite lookup_insert_ne, Hd by done.
    destruct (setup_ok _ _); [|done]. cbn. by rewrite lookup_insert_ne.
  - rewrite handle_client_stats. destruct (setup_ok _ _); [|done]. cbn.
    rewrite counter_get_incr, decide_False by done. lia.
  - rewrite handle_client_connection_count.
    destruct (setup_ok _ _); [|lia]. rewrite decide_False by done. lia.
Qed.

Lemma other_addresses_untouched_witness :
  let s := run_sessions (repeated 2) (serving default_config boot) in
  let s' := (handle_client peer_closes ("10.0.0.6"%string, 40001) s).2 in
  ip_delays s' !! "10.0.0.5"%string = ip_delays s !! "10.0.0.5"%string
  ∧ counter_get "10.0.0.5" (connections_per_ip (server_stats s'))
    = counter_get "10.0.0.5" (connections_per_ip (server_stats s))
  ∧ connection_count s' "10.0.0.5" = connection_count s "10.0.0.5".
Proof.
  apply (other_addresses_untouched peer_closes ("10.0.0.6"%string, 40001)).
  discriminate.
Defined.

(** X5.  The attempt number a handler logs for an address counts the earlier
    connections from that address whose set-up succeeded, plus one; earlier
    connections whose set-up failed are not counted. *)
Theorem attempt_number_counts_successful_connections
    (c : config) (now : datetime) (sessions : list (conn_env * (string * Z)))
    (env : conn_env) (ip : string) (peer_port : Z) :
  setup_ok c env = true →
  let s := run_sessions sessions (serving c now) in
  ∃ delay tail,
    events (handle_client env (ip, peer_port) s).2
    = events s
      ++ Log INFO (LogConnection ip peer_port
                     (Z.of_nat (sessions_from ip (succeeded c sessions)) + 1) delay)
         :: tail.
Proof.
  intros Hok s.
  destruct (run_sessions_counters c sessions (serving c now) eq_refl) as (Hc & _ & _ & Hi).
  fold s in Hc, Hi. destruct (Hi ip) as [_ Hn].
  destruct (handle_client_first_events env ip peer_port s) as [tail Hev].
  { by rewrite Hc. }
  cbn zeta in Hev. rewrite Hev. unfold connection_count in Hn. rewrite Hn.
  cbn. rewrite lookup_empty. cbn. eauto.
Qed.

Lemma attempt_number_counts_successful_connections_witness :
  let s := run_sessions (repeated 2) (serving default_config boot) in
  ∃ delay tail,
    events (handle_client peer_closes ("10.0.0.5"%string, 40000) s).2
    = events s
      ++ Log INFO (LogConnection "10.0.0.5" 40000
                     (Z.of_nat (sessions_from "10.0.0.5"
                                  (succeeded default_config (repeated 2))) + 1) delay)
         :: tail.
Proof.
  apply (attempt_number_counts_successful_connections default_config boot (repeated 2)
           peer_closes "10.0.0.5" 40000).
  reflexivity.
Defined.

(** X6.  A handler whose socket set-up fails writes exactly three events: the
    record chosen by the [except] clauses for the exception, the closing of
    the socket, and the closure record.  It sends nothing, sleeps never, and
    logs no connection record.  The exception is the [OverflowError] of
    [settimeout] when the nanoseconds of the configured timeout do not fit the
    C time type, its [ValueError] when the timeout is negative otherwise, and
    else the one raised by [setsockopt]. *)
Theorem failed_setup_trace (env : conn_env) (client_address : string * Z) (s : server) :
  setup_ok (cfg s) env = false →
  ∃ e,
    handle_client_enter env client_address s = (Raise e, s)
    ∧ events (handle_client env client_address s).2
      = events s ++ [failure_record client_address.1 e; SockClose;
                     Log INFO (LogClosed client_address.1)]
    ∧ (connection_timeout (cfg s) < -9223372036 ∨ 9223372036 < connection_timeout (cfg s)
       → e = OverflowError)
    ∧ (-9223372036 <= connection_timeout (cfg s) < 0 → e = ValueError)
    ∧ (0 <= connection_timeout (cfg s) <= 9223372036 → setsockopt_raises env = Some e).
Proof.
  intros Hfail. unfold setup_ok in Hfail.
  assert (Hgen : ∀ e, handle_client_enter env client_address s = (Raise e, s) →
            events (handle_client env client_address s).2
            = events s ++ [failure_record client_address.1 e; SockClose;
                           Log INFO (LogClosed client_address.1)]).
  { intros e He. unfold handle_client, try_finally, handle_client_body, try_except,
      handle_client_try. run. rewrite He. cbn.
    destruct e; cbn; run; rewrite handle_client_finally_eq; cbn;
      by rewrite <- app_assoc. }
  assert (Henter : ∃ e, handle_client_enter env client_address s = (Raise e, s)
            ∧ (connection_timeout (cfg s) < -9223372036
               ∨ 9223372036 < connection_timeout (cfg s) → e = OverflowError)
            ∧ (-9223372036 <= connection_timeout (cfg s) < 0 → e = ValueError)
            ∧ (0 <= connection_timeout (cfg s) <= 9223372036
               → setsockopt_raises env = Some e)).
  { unfold handle_client_enter, settimeout. run.
    destruct ((connection_timeout (cfg s) <? -9223372036)
              || (9223372036 <? connection_timeout (cfg s))) eqn:Hov.
    { exists OverflowError. split; [done|]. split; [done|]. split; lia. }
    destruct (connection_timeout (cfg s) <? 0) eqn:Ht.
    - exists ValueError. split; [done|]. split; [lia|]. split; [done | lia].
    - assert ((0 <=? connection_timeout (cfg s))
              && (connection_timeout (cfg s) <=? 9223372036) = true) as Hr by lia.
      rewrite Hr in Hfail. cbn in Hfail.
      destruct (tcp_keepalive (cfg s)); [|done]. cbn in Hfail.
      destruct (setsockopt_raises env) as [e|]; [|done].
      exists e. cbn. split; [done|]. split; [lia|]. split; [lia | done]. }
  destruct Henter as (e & He & H1 & H2). exists e.
  split; [done|]. split; [by apply Hgen|]. done.
Qed.

Lemma failed_setup_trace_witness :
  let s := serving default_config boot in
  ∃ e,
    handle_client_enter setup_fails ("10.0.0.5"%string, 40000) s = (Raise e, s)
    ∧ events (handle_client setup_fails ("10.0.0.5"%string, 40000) s).2
      = events s ++ [failure_record "10.0.0.5" e; SockClose;
                     Log INFO (LogClosed "10.0.0.5")]
    ∧ (connection_timeout (cfg s) < -9223372036 ∨ 9223372036 < connection_timeout (cfg s)
       → e = OverflowError)
    ∧ (-9223372036 <= connection_timeout (cfg s) < 0 → e = ValueError)
    ∧ (0 <= connection_timeout (cfg s) <= 9223372036
       → setsockopt_raises setup_fails = Some e).
Proof.
  apply (failed_setup_trace setup_fails ("10.0.0.5"%string, 40000)
           (serving default_config boot)).
  reflexivity.
Defined.

(** ** The banner and the monitoring loop *)

(** X7.  With a negative [banner_delay] (from -9223372036 seconds on, below
    which [time.sleep] fails on the range of the C time type before it looks
    at the sign) and a first [send] that succeeds, [send_ssh_banner] transmits
    one character and is left by the [ValueError] of [time.sleep]; a handler
    whose set-up succeeded, and whose adaptive delay [time.sleep] has
    accepted, then logs that error, reads nothing from the connection, and
    tears down. *)
Theorem negative_banner_delay_stops_handler
    (env : conn_env) (client_address : string * Z) (s : server) :
  (-9223372036 <= banner_delay (cfg s) < 0)%Q →
  send_raises env 0 = false →
  setup_ok (cfg s) env = true →
  sleep_raises env (Py.min (stored_delay s client_address.1) (max_delay (cfg s))) = None →
  ∃ first rest,
    banner_chars (cfg s) = first :: rest
    ∧ send_ssh_banner env s = (Raise ValueError, add_event (Send first) s)
    ∧ events (handle_client env client_address s).2
      = events (entered client_address s)
        ++ [Send first; Log ERROR (LogHandlerError client_address.1 ValueError);
            SockClose; Log INFO (LogClosed client_address.1)].
Proof.
  intros [Hlow Hneg] Hsend Hok Hsl.
  assert (Herr : sleep_error env (banner_delay (cfg s)) = Some ValueError).
  { unfold sleep_error.
    assert (Py.Qltb (banner_delay (cfg s) * 1000000000)
              (- (9223372036854775808 + 1024)) = false) as ->.
    { apply Qltb_ge. lra. }
    apply Qltb_lt in Hneg. by rewrite Hneg. }
  assert (Hchars : ∃ first rest, banner_chars (cfg s) = first :: rest).
  { rewrite banner_chars_crlf. destruct (list_ascii_of_string _); cbn; eauto. }
  destruct Hchars as (first & rest & Hchars). exists first, rest.
  assert (Hbanner : ∀ s0, cfg s0 = cfg s →
            send_ssh_banner env s0 = (Raise ValueError, add_event (Send first) s0)).
  { intros s0 Hc. unfold send_ssh_banner. run. fold (banner_chars (cfg s0)).
    rewrite Hc, Hchars. cbn [banner_loop]. rewrite Hsend. run.
    unfold sleep. rewrite Herr. done. }
  split; [done|]. split; [by apply Hbanner|].
  unfold handle_client, try_finally, handle_client_body, try_except, handle_client_try.
  run. rewrite (handle_client_enter_ok _ _ _ Hok Hsl), Hbanner by done. cbn.
  rewrite handle_client_finally_eq. cbn. by rewrite <- !app_assoc.
Qed.

Lemma negative_banner_delay_stops_handler_witness :
  let s := serving (with_banner_delay (-0.1)%Q default_config) boot in
  ∃ first rest,
    banner_chars (cfg s) = first :: rest
    ∧ send_ssh_banner peer_closes s = (Raise ValueError, add_event (Send first) s)
    ∧ events (handle_client peer_closes ("10.0.0.5"%string, 40000) s).2
      = events (entered ("10.0.0.5"%string, 40000) s)
        ++ [Send first; Log ERROR (LogHandlerError "10.0.0.5" ValueError);
            SockClose; Log INFO (LogClosed "10.0.0.5")].
Proof.
  apply (negative_banner_delay_stops_handler peer_closes ("10.0.0.5"%string, 40000)
           (serving (with_banner_delay (-0.1)%Q default_config) boot)).
  - split; vm_compute; [discriminate | reflexivity].
  - reflexivity.
  - reflexivity.
  - reflexivity.
Defined.

(** X8.  A [recv] that times out changes nothing: the monitoring loop gives
    the same result, state and log when the timeouts are removed from the
    sequence of reads. *)
Theorem timeouts_are_transparent
    (ip : string) (script : list recv_result) (buffer : list byte) (s : server) :
  monitor_loop ip script buffer s
  = monitor_loop ip (List.filter (λ r, negb (is_timeout r)) script) buffer s.
Proof.
  revert buffer s. induction script as [|r script IH]; intros buffer s; [done|].
  destruct r as [data| |]; cbn [List.filter is_timeout negb].
  - cbn [monitor_loop]. run. destruct (running s); [|done]. cbn.
    destruct data; [done|]. cbn. apply IH.
  - rewrite <- IH. cbn [monitor_loop]. run. destruct (running s) eqn:Hrun; cbn; [done|].
    destruct script; cbn [monitor_loop]; run; [done|]. by rewrite Hrun.
  - cbn [monitor_loop]. run. by destruct (running s).
Qed.

(** X9.  The loop ends at the first read that returns no data or fails:
    whatever would be read afterwards has no effect. *)
Theorem reads_after_the_end_are_ignored
    (ip : string) (before after : list recv_result) (buffer : list byte) (s : server) :
  monitor_loop ip (before ++ RecvData [] :: after) buffer s
  = monitor_loop ip (before ++ [RecvData []]) buffer s
  ∧ monitor_loop ip (before ++ RecvError :: after) buffer s
    = monitor_loop ip (before ++ [RecvError]) buffer s.
Proof.
  revert buffer s. induction before as [|r before IH]; intros buffer s.
  - cbn [app monitor_loop]. run. by destruct (running s).
  - cbn [app monitor_loop]. run. destruct (running s); [|done]. cbn.
    destruct r as [[|x data]| |]; cbn; try done; apply IH.
Qed.

Lemma monitor_step_small (M : Z) (buffer data : list byte) :
  Py.len (buffer ++ data) <= M →
  monitor_step M buffer data = (buffer ++ data, buffer ++ data).
Proof.
  intros H. unfold monitor_step.
  assert (0 <= Py.len (buffer ++ data)) by (unfold Py.len; lia).
  assert ((M <? Py.len (buffer ++ data)) = false) as -> by (apply Z.ltb_ge; lia).
  assert ((M * 2 <? Py.len (buffer ++ data)) = false) as -> by (apply Z.ltb_ge; lia).
  done.
Qed.

Lemma accumulated_length_le (buffer : list byte) (chunks : list (list byte)) :
  Py.len buffer <= Py.len (buffer ++ concat chunks).
Proof. unfold Py.len. rewrite length_app. lia. Qed.

(** X10.  While everything received fits in [max_input_length], each read
    logs the whole buffer so far, the earlier data included, and at the end
    the buffer is the concatenation of all the data read. *)
Theorem small_inputs_are_logged_cumulatively
    (ip : string) (chunks : list (list byte)) (s : server) :
  running s = true →
  Forall (λ data, data ≠ []) chunks →
  Py.len (concat chunks) <= max_input_length (cfg s) →
  (monitor_loop ip (RecvData <$> chunks) [] s).1 = Ok (concat chunks)
  ∧ events (monitor_loop ip (RecvData <$> chunks) [] s).2
    = events s ++ ((λ d, Log INFO (LogData ip d)) <$> accumulated [] chunks).
Proof.
  intros Hrun Hne Hlen.
  assert (Hgen : ∀ chunks buffer s,
            running s = true →
            Forall (λ data, data ≠ []) chunks →
            Py.len (buffer ++ concat chunks) <= max_input_length (cfg s) →
            (monitor_loop ip (RecvData <$> chunks) buffer s).1
            = Ok (buffer ++ concat chunks)
            ∧ events (monitor_loop ip (RecvData <$> chunks) buffer s).2
              = events s ++ ((λ d, Log INFO (LogData ip d)) <$> accumulated buffer chunks)).
  { clear. induction chunks as [|data chunks IH]; intros buffer s Hrun Hne Hlen.
    - cbn. by rewrite !app_nil_r.
    - apply Forall_cons in Hne as [Hd Hne]. cbn [fmap list_fmap concat accumulated].
      rewrite monitor_loop_data by done. cbn [concat] in Hlen.
      rewrite app_assoc in Hlen.
      rewrite monitor_step_small.
      2:{ pose proof (accumulated_length_le (buffer ++ data) chunks). lia. }
      cbn [fst snd].
      destruct (IH (buffer ++ data) (add_event (Log INFO (LogData ip (buffer ++ data))) s))
        as [Hr He]; [done..|].
      rewrite Hr, He. cbn. by rewrite <- !app_assoc. }
  by apply Hgen.
Qed.

Lemma small_inputs_are_logged_cumulatively_witness :
  let s := serving default_config boot in
  let chunks := [list_byte_of_string "root"; list_byte_of_string "toor"] in
  (monitor_loop "10.0.0.5" (RecvData <$> chunks) [] s).1 = Ok (concat chunks)
  ∧ events (monitor_loop "10.0.0.5" (RecvData <$> chunks) [] s).2
    = events s ++ ((λ d, Log INFO (LogData "10.0.0.5" d)) <$> accumulated [] chunks).
Proof.
  apply (small_inputs_are_logged_cumulatively "10.0.0.5"
           [list_byte_of_string "root"; list_byte_of_string "toor"]
           (serving default_config boot)).
  - reflexivity.
  - repeat constructor; discriminate.
  - vm_compute. discriminate.
Defined.

Lemma monitor_step_log_bounded (M : Z) (buffer data : list byte) :
  0 <= M →
  Py.len (monitor_step M buffer data).1 <= M + Py.len truncated_marker.
Proof.
  intros HM. unfold monitor_step. cbn [fst].
  destruct (M <? Py.len (buffer ++ data)) eqn:E.
  - apply Z.ltb_lt in E. rewrite slice_to_take by lia.
    unfold Py.len in *. rewrite length_app, length_take. lia.
  - apply Z.ltb_ge in E. unfold Py.len in *. lia.
Qed.

(** X11.  When [max_input_length] is not negative, no byte string that the
    monitoring loop hands to [decode] for a record of received data is longer
    than [max_input_length] bytes plus the fourteen bytes of the marker,
    however much is received.  (The record written is the decoding of these
    bytes.) *)
Theorem logged_data_is_bounded
    (ip : string) (script : list recv_result) (buffer : list byte) (s : server) :
  0 <= max_input_length (cfg s) →
  ∃ evs,
    events (monitor_loop ip script buffer s).2 = events s ++ evs
    ∧ Forall (λ d, Py.len d <= max_input_length (cfg s) + 14) (data_records evs).
Proof.
  revert buffer s. induction script as [|r script IH]; intros buffer s HM.
  - exists []. cbn. by rewrite app_nil_r.
  - destruct (running s) eqn:Hrun.
    + destruct r as [[|x data]| |].
      * exists []. cbn [monitor_loop]. run. rewrite Hrun. cbn. by rewrite app_nil_r.
      * rewrite monitor_loop_data by done.
        destruct (IH (monitor_step (max_input_length (cfg s)) buffer (x :: data)).2
                    (add_event (Log INFO (LogData ip
                       (monitor_step (max_input_length (cfg s)) buffer (x :: data)).1)) s))
          as (evs & He & Hall); [done|].
        eexists (_ :: evs). split.
        -- rewrite He. cbn. by rewrite <- app_assoc.
        -- cbn. constructor; [|exact Hall].
           by apply (monitor_step_log_bounded _ buffer (x :: data)).
      * cbn [monitor_loop]. run. rewrite Hrun. cbn. by apply IH.
      * exists []. cbn [monitor_loop]. run. rewrite Hrun. cbn. by rewrite app_nil_r.
    + exists []. cbn [monitor_loop]. run. rewrite Hrun. cbn. by rewrite app_nil_r.
Qed.

Lemma logged_data_is_bounded_witness :
  let s := serving default_config boot in
  let script := repeat (RecvData (repeat "a"%byte 1000)) 5 in
  ∃ evs,
    events (monitor_loop "10.0.0.5" script [] s).2 = events s ++ evs
    ∧ Forall (λ d, Py.len d <= max_input_length (cfg s) + 14) (data_records evs).
Proof.
  apply (logged_data_is_bounded "10.0.0.5" (repeat (RecvData (repeat "a"%byte 1000)) 5)
           [] (serving default_config boot)).
  vm_compute. discriminate.
Defined.

(** ** Listener and shutdown *)

Lemma shutdown_stops env s : running (shutdown env s).2 = false.
Proof.
  unfold shutdown. run. destruct (running s) eqn:Hrun; cbn; [|done].
  destruct (server_socket s); cbn; destruct (http_server_thread s); cbn;
    try destruct (http_stats_stays_alive env); reflexivity.
Qed.

(** X12.  A second [shutdown] does nothing: once [shutdown] has run, running
    it again returns at once and leaves the state, the trace included, as it
    is. *)
Theorem shutdown_is_idempotent (env env' : start_env) (s : server) :
  shutdown env' (shutdown env s).2 = (Ok tt, (shutdown env s).2).
Proof.
  pose proof (shutdown_stops env s) as Hstop.
  destruct (shutdown env s) as [r s1]. cbn in *.
  unfold shutdown. run. by rewrite Hstop.
Qed.


Lemma accept_loop_spawns env conns :
  ∀ s, accept_loop env conns s
       = accept_loop env [] (set_events (λ l, l ++ (Spawn <$> conns)) s).
Proof.
  induction conns as [|addr conns IH]; intros s.
  - by rewrite set_events_id.
  - cbn [accept_loop]. run. rewrite IH. f_equal.
    destruct s. unfold set_events, add_event. cbn. by rewrite <- app_assoc.
Qed.

(** The whole trace of a [start] whose set-up succeeds. *)
Lemma start_events_ok (env : start_env) (s : server) :
  running s = false →
  http_server_thread s = false →
  startup_failure env = None →
  let c := cfg s in
  events (start env s).2
  = events s
    ++ [Bind (port c); Listen (max_connections c); Log INFO (LogListening (port c))]
    ++ (if enable_http_stats c
        then [HttpStatsStart (http_stats_port c);
              Log INFO (LogHttpStatsAttempt (http_stats_port c))]
        else [])
    ++ (Spawn <$> accepted env)
    ++ [stop_event (stop env)]
    ++ shutdown_events env (enable_http_stats c)
         (total_connections (server_stats s))
         (most_common 5 (connections_per_ip (server_stats s))).
Proof.
  intros Hrun Hhttp Hfail c. unfold startup_failure in Hfail.
  destruct (socket_raises env) eqn:Hs; [done|].
  destruct (bind_raises env) eqn:Hb; [done|].
  unfold start, try_finally, try_except. run. rewrite Hs, Hb, Hfail. run.
  unfold start_http_stats_server, shutdown_events. run. fold c.
  destruct s as [c0 run0 sock0 http0 st0 dl0 cn0 ev0]. cbn in *. subst.
  destruct (enable_http_stats c0) eqn:Hen;
    cbn [cfg add_event set_events set_running set_server_socket set_http_server_thread];
    rewrite ?Hen; rewrite accept_loop_spawns; cbn [accept_loop];
    unfold signal_handler, shutdown; run;
    destruct (stop env); destruct (http_stats_stays_alive env);
    simpl; rewrite <- ?app_assoc; simpl; reflexivity.
Qed.



(** The whole trace of a [start] whose set-up fails. *)
Lemma start_events_failed (env : start_env) (s : server) (e : exn) :
  running s = false →
  startup_failure env = Some e →
  events (start env s).2
  = events s
    ++ (match socket_raises env, bind_raises env with
        | None, None => [Bind (port (cfg s))]
        | _, _ => []
        end)
    ++ [Log ERROR (LogFailedToStart e)]
  ∧ server_socket (start env s).2
    = match socket_raises env with Some _ => server_socket s | None => true end.
Proof.
  intros Hrun Hfail. unfold startup_failure in Hfail.
  unfold start, try_finally, try_except, shutdown. run.
  destruct s as [c0 run0 sock0 http0 st0 dl0 cn0 ev0]. simpl in *. subst.
  destruct (socket_raises env) as [e1|]; simpl.
  - injection Hfail as ->. done.
  - destruct (bind_raises env) as [e2|]; simpl.
    + injection Hfail as ->. done.
    + rewrite Hfail. simpl. by rewrite <- app_assoc.
Qed.

(** X15.  When setting the listening socket up fails on a fresh object,
    [start] only logs the failure: no handler is started, the shutdown
    sequence does not run, and a socket that was created is not closed. *)
Theorem failed_startup_is_only_logged (env : start_env) (s : server) (e : exn) :
  running s = false →
  startup_failure env = Some e →
  events (start env s).2
  = events s
    ++ (match socket_raises env, bind_raises env with
        | None, None => [Bind (port (cfg s))]
        | _, _ => []
        end)
    ++ [Log ERROR (LogFailedToStart e)]
  ∧ server_socket (start env s).2
    = match socket_raises env with Some _ => server_socket s | None => true end.
Proof. apply start_events_failed. Qed.

Lemma failed_startup_is_only_logged_witness :
  let s := new_server default_config boot in
  let env := listener port_in_use in
  events (start env s).2
  = events s
    ++ (match socket_raises env, bind_raises env with
        | None, None => [Bind (port (cfg s))]
        | _, _ => []
        end)
    ++ [Log ERROR (LogFailedToStart OSError)]
  ∧ server_socket (start env s).2
    = match socket_raises env with Some _ => server_socket s | None => true end.
Proof.
  apply (failed_startup_is_only_logged (listener port_in_use)
           (new_server default_config boot) OSError).
  - reflexivity.
  - reflexivity.
Defined.

(** ** Entry point and configuration *)

Lemma DeadlockSSH_init_fresh config_file env h out :
  DeadlockSSH_init config_file env = (Ok h, out) →
  running h = false ∧ http_server_thread h = false
  ∧ events h = [Log INFO LogInitialized].
Proof.
  unfold DeadlockSSH_init.
  destruct (match config_file with Some _ => _ | None => _ end) as [c out0].
  destruct (setup_logging_raises env); [done|]. by intros [= <- _].
Qed.

(** X16.  A port given on the command line replaces the port of the
    configuration before the socket is bound, unless it is 0, which is
    ignored like a missing option: the port bound is then the one the
    constructor ended up with. *)
Theorem command_line_port_takes_precedence
    (a : args) (env : main_env) (h : server) (out : list console_line) :
  DeadlockSSH_init (arg_config a) env = (Ok h, out) →
  socket_raises (listener env) = None →
  bind_raises (listener env) = None →
  let bound :=
    match arg_port a with
    | Some p => if p =? 0 then port (cfg h) else p
    | None => port (cfg h)
    end in
  ∃ s tail,
    final (main a env) = Some s
    ∧ events s = events h ++ Bind bound :: tail.
Proof.
  intros Hinit Hs Hb bound.
  destruct (DeadlockSSH_init_fresh _ _ _ _ Hinit) as (Hrun & Hhttp & _).
  unfold main. rewrite Hinit.
  set (h' := match arg_port a with
             | Some p => if p =? 0 then h else set_cfg (with_port p) h
             | None => h
             end).
  assert (Hh' : running h' = false ∧ http_server_thread h' = false
                ∧ events h' = events h ∧ port (cfg h') = bound).
  { unfold h', bound. destruct (arg_port a) as [p|]; [|done].
    by destruct (p =? 0). }
  destruct Hh' as (Hrun' & Hhttp' & Hev' & Hport').
  pose proof (start_returns (listener env) h') as Hret.
  assert (Hevents : ∃ tail, events (start (listener env) h').2
                            = events h ++ Bind bound :: tail).
  { destruct (listen_raises (listener env)) as [e|] eqn:Hl.
    - destruct (start_events_failed (listener env) h' e Hrun') as [He _].
      { unfold startup_failure. by rewrite Hs, Hb. }
      rewrite He, Hs, Hb, Hev', Hport'. cbn. eauto.
    - rewrite (start_events_ok (listener env) h' Hrun' Hhttp').
      2:{ unfold startup_failure. by rewrite Hs, Hb. }
      rewrite Hev', Hport'. cbn. eauto. }
  destruct Hevents as [tail Hevents].
  destruct (start (listener env) h') as [r s]. cbn in *. subst r.
  exists s, tail. by cbn.
Qed.

Lemma command_line_port_takes_precedence_witness :
  let a := {| arg_config := None; arg_port := Some 2022 |} in
  ∃ s tail,
    final (main a terminated_by_signal) = Some s
    ∧ events s = [Log INFO LogInitialized] ++ Bind 2022 :: tail.
Proof.
  apply (command_line_port_takes_precedence
           {| arg_config := None; arg_port := Some 2022 |} terminated_by_signal
           (add_event (Log INFO LogInitialized) (new_server default_config boot)) []).
  - reflexivity.
  - reflexivity.
  - reflexivity.
Defined.


Lemma assign_convertible {A : Type} (field : config → A)
    (with_field : A → config → config) (v : option_value A) (c : config) :
  convertible v = true →
  assign field with_field v c = (Ok tt, with_field (chosen v (field c)) c).
Proof. intros H. by destruct v. Qed.

(** X18.  When every option of the section is missing or converts,
    [load_config] reports success, gives each key the value of its option
    when the option is present, and leaves each key whose option is missing
    at its previous value. *)
Theorem valid_file_overrides_the_given_options
    (name : string) (section : honeypot_section) (c : config) :
  all_convertible section = true →
  load_config name (Parsed (Some section)) c
  = ({| port := chosen (o_port section) (port c);
        max_connections := chosen (o_max_connections section) (max_connections c);
        ssh_banner := chosen (o_ssh_banner section) (ssh_banner c);
        banner_delay := chosen (o_banner_delay section) (banner_delay c);
        initial_delay := chosen (o_initial_delay section) (initial_delay c);
        delay_increment := chosen (o_delay_increment section) (delay_increment c);
        max_delay := chosen (o_max_delay section) (max_delay c);
        log_file := chosen (o_log_file section) (log_file c);
        log_level := chosen (o_log_level section) (log_level c);
        max_log_size := chosen (o_max_log_size section) (max_log_size c);
        log_backup_count := chosen (o_log_backup_count section) (log_backup_count c);
        max_input_length := chosen (o_max_input_length section) (max_input_length c);
        connection_timeout := chosen (o_connection_timeout section) (connection_timeout c);
        enable_http_stats := chosen (o_enable_http_stats section) (enable_http_stats c);
        http_stats_port := chosen (o_http_stats_port section) (http_stats_port c);
        tcp_keepalive := chosen (o_tcp_keepalive section) (tcp_keepalive c) |},
     [PrintConfigurationLoaded name]).
Proof.
  unfold all_convertible. rewrite !andb_true_iff.
  intros [[[[[[[[[[[[[[[H1 H2] H3] H4] H5] H6] H7] H8] H9] H10] H11] H12] H13] H14] H15] H16].
  unfold load_config, load_config_try. unfold mbind, ST_bind.
  rewrite !assign_convertible by done. reflexivity.
Qed.

Lemma valid_file_overrides_the_given_options_witness :
  let section :=
    {| o_port := Value 2022;
       o_max_connections := Missing;
       o_ssh_banner := Value "SSH-2.0-dropbear"%string;
       o_banner_delay := Missing;
       o_initial_delay := Missing;
       o_delay_increment := Missing;
       o_max_delay := Value 30.0%Q;
       o_log_file := Missing;
       o_log_level := Missing;
       o_max_log_size := Missing;
       o_log_backup_count := Missing;
       o_max_input_length := Missing;
       o_connection_timeout := Missing;
       o_enable_http_stats := Value true;
       o_http_stats_port := Missing;
       o_tcp_keepalive := Missing |} in
  load_config "honeypot.ini" (Parsed (Some section)) default_config
  = (with_enable_http_stats true
       (with_max_delay 30.0%Q
          (with_ssh_banner "SSH-2.0-dropbear" (with_port 2022 default_config))),
     [PrintConfigurationLoaded "honeypot.ini"]).
Proof.
  intros section.
  rewrite (valid_file_overrides_the_given_options "honeypot.ini" section default_config).
  - reflexivity.
  - reflexivity.
Defined.

(** ** The statistics served *)

Lemma counter_get_absent ip c : ip ∉ counter_keys c → counter_get ip c = 0.
Proof.
  unfold counter_keys. induction c as [|[k n] c IH]; cbn; [done|].
  intros Hnot. destruct (String.eqb_spec k ip) as [->|Hne].
  - exfalso. apply Hnot. apply elem_of_cons. by left.
  - apply IH. intros Hin. apply Hnot. apply elem_of_cons. by right.
Qed.

Lemma counter_get_present ip c :
  Forall (λ kv : string * Z, 1 <= kv.2) c → ip ∈ counter_keys c → 1 <= counter_get ip c.
Proof.
  unfold counter_keys. induction c as [|[k n] c IH]; cbn; intros Hall Hin.
  - by apply elem_of_nil in Hin.
  - apply Forall_cons in Hall as [Hn Hall]. cbn in Hn.
    destruct (String.eqb_spec k ip) as [->|Hne]; [done|].
    apply IH; [done|]. apply elem_of_cons in Hin as [?|?]; [congruence | done].
Qed.

Lemma counter_incr_positive key c :
  Forall (λ kv : string * Z, 1 <= kv.2) c →
  Forall (λ kv : string * Z, 1 <= kv.2) (counter_incr key c).
Proof.
  induction c as [|[k n] c IH]; cbn; intros Hall.
  - by repeat constructor.
  - apply Forall_cons in Hall as [Hn Hall]. cbn in Hn.
    destruct (String.eqb k key); constructor; cbn; auto; lia.
Qed.

Lemma reachable_counts_positive c now s :
  reachable c now s →
  Forall (λ kv : string * Z, 1 <= kv.2) (connections_per_ip (server_stats s)).
Proof.
  unfold reachable. revert s.
  apply (rtc_ind_r (λ s, Forall (λ kv : string * Z, 1 <= kv.2)
                           (connections_per_ip (server_stats s)))).
  - constructor.
  - intros s1 s2 _ Hstep IH.
    destruct (step_counters _ _ Hstep) as [(_ & -> & _)|(ip0 & _ & -> & _)]; [done|].
    by apply counter_incr_positive.
Qed.

Lemma json_get_counter ip c :
  json_get ip (map (λ kv : string * Z, (kv.1, JInt kv.2)) c)
  = if decide (ip ∈ counter_keys c) then Some (JInt (counter_get ip c)) else None.
Proof.
  unfold counter_keys. induction c as [|[k n] c IH]; cbn.
  - case_decide as H; [by apply elem_of_nil in H | done].
  - destruct (String.eqb_spec k ip) as [->|Hne].
    + rewrite decide_True; [done|]. apply elem_of_cons. by left.
    + rewrite IH. case_decide as H1; case_decide as H2; try done.
      * exfalso. apply H2. apply elem_of_cons. by right.
      * exfalso. apply elem_of_cons in H2 as [?|?]; congruence.
Qed.

(** X19.  After handlers that ran one after the other on a fresh server, the
    object served for [/stats] has [total_connections] equal to the number of
    connections whose set-up succeeded, [active_connections] equal to minus
    the number of those whose set-up failed, and under [connections_per_ip]
    exactly one member for each address with at least one successful
    connection, holding the number of its successful connections. *)
Theorem stats_object_after_sessions
    (c : config) (now : datetime) (sessions : list (conn_env * (string * Z)))
    (client : string) :
  let st := server_stats (run_sessions sessions (serving c now)) in
  let count ip := Z.of_nat (sessions_from ip (succeeded c sessions)) in
  body (do_GET st client "/stats").1 = dumps (JObject (stats_fields st))
  ∧ json_get "total_connections" (stats_fields st)
    = Some (JInt (Z.of_nat (length (succeeded c sessions))))
  ∧ json_get "active_connections" (stats_fields st)
    = Some (JInt (- Z.of_nat (length (failed c sessions))))
  ∧ ∃ members,
      json_get "connections_per_ip" (stats_fields st) = Some (JObject members)
      ∧ NoDup members.*1
      ∧ ∀ ip, json_get ip members
              = if decide (0 < count ip) then Some (JInt (count ip)) else None.
Proof.
  intros st count.
  destruct (run_sessions_counters c sessions (serving c now) eq_refl)
    as (_ & Ht & Ha & Hi).
  assert (Hreach : reachable c now (run_sessions sessions (serving c now))).
  { apply reachable_run_sessions, rtc_refl. }
  destruct (reachable_counters _ _ _ Hreach) as (_ & Hnodup & _).
  pose proof (reachable_counts_positive _ _ _ Hreach) as Hpos.
  cbn zeta in *. fold st in Ht, Ha, Hi, Hnodup, Hpos.
  split; [reflexivity|]. cbn [stats_fields json_get String.eqb Ascii.eqb Bool.eqb].
  split; [rewrite Ht; cbn; do 2 f_equal; lia|].
  split; [rewrite Ha; cbn; do 2 f_equal; lia|].
  eexists. split; [reflexivity|]. split.
  - rewrite <- list_fmap_compose. exact Hnodup.
  - intros ip. rewrite json_get_counter.
    destruct (Hi ip) as [Hc _]. cbn in Hc. fold (count ip) in Hc.
    case_decide as Hin; case_decide as Hcount; try done.
    + by rewrite Hc.
    + pose proof (counter_get_present _ _ Hpos Hin). lia.
    + pose proof (counter_get_absent _ _ Hin). lia.
Qed.

(** ** The shape of a handler's trace *)

Lemma monitor_loop_events ip script :
  ∀ buffer s,
    ∃ evs, events (monitor_loop ip script buffer s).2 = events s ++ evs
           ∧ Forall (is_data_record ip) evs.
Proof.
  induction script as [|r script IH]; intros buffer s.
  - exists []. cbn. by rewrite app_nil_r.
  - destruct (running s) eqn:Hrun.
    + destruct r as [[|x data]| |].
      * exists []. cbn [monitor_loop]. run. rewrite Hrun. simpl. by rewrite app_nil_r.
      * rewrite monitor_loop_data by done.
        destruct (IH (monitor_step (max_input_length (cfg s)) buffer (x :: data)).2
                    (add_event (Log INFO (LogData ip
                       (monitor_step (max_input_length (cfg s)) buffer (x :: data)).1)) s))
          as (evs & He & Hall).
        eexists (_ :: evs). split.
        -- rewrite He. simpl. by rewrite <- app_assoc.
        -- constructor; [by eexists | exact Hall].
      * cbn [monitor_loop]. run. rewrite Hrun. simpl. apply IH.
      * exists []. cbn [monitor_loop]. run. rewrite Hrun. simpl. by rewrite app_nil_r.
    + exists []. cbn [monitor_loop]. run. rewrite Hrun. simpl. by rewrite app_nil_r.
Qed.

(** X20.  When the set-up succeeds and [time.sleep] accepts the adaptive
    delay and [banner_delay] (which is not negative), the events of a handler
    are, in this order: the connection record, the pause when the delay is
    positive, the units of the banner sent before the first failing [send],
    each followed by its pause, then only records of received data, then the
    closing of the socket and the closure record. *)
Theorem handler_trace_shape (env : conn_env) (client_address : string * Z) (s : server) :
  setup_ok (cfg s) env = true →
  sleep_raises env (Py.min (stored_delay s client_address.1) (max_delay (cfg s))) = None →
  (0 <= banner_delay (cfg s))%Q →
  sleep_raises env (banner_delay (cfg s)) = None →
  ∃ received,
    events (handle_client env client_address s).2
    = events (entered client_address s)
      ++ paced (banner_delay (cfg s)) (units_sent env 0 (banner_chars (cfg s)))
      ++ received
      ++ [SockClose; Log INFO (LogClosed client_address.1)]
    ∧ Forall (is_data_record client_address.1) received.
Proof.
  intros Hok Hsl Hd Hbd.
  unfold handle_client, try_finally, handle_client_body, try_except, handle_client_try.
  run. rewrite (handle_client_enter_ok _ _ _ Hok Hsl).
  unfold send_ssh_banner. run.
  change (cfg (entered client_address s)) with (cfg s).
  fold (banner_chars (cfg s)).
  rewrite banner_loop_spec by (by apply sleep_error_accepted).
  unfold monitor_connection. run.
  match goal with |- context [monitor_loop ?ip ?script ?b ?st] =>
    destruct (monitor_loop_events ip script b st) as (received & He & Hall);
    destruct (monitor_loop_total ip script b st) as [b' Hb'];
    destruct (monitor_loop ip script b st) as [r s1] end.
  simpl in He, Hb'. subst r. rewrite handle_client_finally_eq.
  exists received. split; [|done]. simpl. rewrite He. simpl.
  by rewrite <- !app_assoc.
Qed.

Lemma handler_trace_shape_witness :
  let s := serving default_config boot in
  ∃ received,
    events (handle_client peer_closes ("10.0.0.5"%string, 40000) s).2
    = events (entered ("10.0.0.5"%string, 40000) s)
      ++ paced (banner_delay (cfg s)) (units_sent peer_closes 0 (banner_chars (cfg s)))
      ++ received
      ++ [SockClose; Log INFO (LogClosed "10.0.0.5")]
    ∧ Forall (is_data_record "10.0.0.5") received.
Proof.
  apply (handler_trace_shape peer_closes ("10.0.0.5"%string, 40000)
           (serving default_config boot)).
  - reflexivity.
  - reflexivity.
  - vm_compute. discriminate.
  - reflexivity.
Defined.
